(** * cache-for-clankers: the intelligence and ranking layer

    A shallow embedding of [cache_for_clankers/intelligence.py] (chunking,
    importance scoring, near-duplicate detection) and of the coordinator
    [cache_for_clankers/memory.py] (store / retrieve), together with the
    thin wrapper [cache_for_clankers/store.py].

    Modelling conventions
    - A Python [str] is a [list ascii]; a character stands for the code
      point of the same number (0..255).  The character predicates used by
      [str.split], [str.strip], [str.lower] and the [re] classes [\s], [\d]
      are the ones CPython has on that range.
    - A Python [float] is an IEEE-754 binary64 value: [spec_float] with
      precision 53 and maximal exponent 1024, rounded to nearest-even.
    - A Python [dict] with string keys is a [gmap string value].
    - The ChromaDB collection, [uuid.uuid4], [time.time] and the parser
      behind [float(str)] are outside the repository: the collection is
      observed through the calls made to it, and what it answers is given
      by an environment record. *)

From Stdlib Require Import ZArith Ascii String List Bool Lia SpecFloat.
From Stdlib Require Import DecimalString.
From Stdlib Require Import Sorting.Sorted.
From stdpp Require Import base option list gmap strings.

Abbreviation text := (list ascii).

(** A literal: [str "abc"] is the Python string ['abc']. *)
Definition str (s : string) : text := list_ascii_of_string s.

(** ** Python floats *)

Module PyFloat.

Definition prec : Z := 53.
Definition emax : Z := 1024.

Abbreviation float := spec_float.

Definition fadd : float -> float -> float := SFadd prec emax.
Definition fsub : float -> float -> float := SFsub prec emax.
Definition fmul : float -> float -> float := SFmul prec emax.
Definition fdiv : float -> float -> float := SFdiv prec emax.

(** [x < y], [x <= y], [x == y] and [x >= y] on floats. *)
Definition flt : float -> float -> bool := SFltb.
Definition fle : float -> float -> bool := SFleb.
Definition feq : float -> float -> bool := SFeqb.
Definition fge (x y : float) : bool := SFleb y x.

Definition is_nan (x : float) : bool :=
  match x with S754_nan => true | _ => false end.

(** [float(n)] for a Python int: the nearest binary64 value.  (Beyond the
    binary64 range Python raises [OverflowError] where this yields an
    infinity; no [len] comes near it.) *)
Definition float_of_int (n : Z) : float :=
  binary_normalize prec emax n 0 false.

(** An integer read as an exact (unrounded) binary number. *)
Definition exact_int (n : Z) : float :=
  match n with
  | Z0 => S754_zero false
  | Zpos p => S754_finite false p 0
  | Zneg p => S754_finite true p 0
  end.

(** [a / b] for two Python ints: the correctly rounded quotient. *)
Definition int_truediv (a b : Z) : float :=
  SFdiv prec emax (exact_int a) (exact_int b).

(** The decimal literals of the sources. *)
Definition f0 : float := S754_zero false.
Definition f1 : float := Eval vm_compute in float_of_int 1.
Definition f100 : float := Eval vm_compute in float_of_int 100.
Definition f0_1 : float := Eval vm_compute in int_truediv 1 10.
Definition f0_3 : float := Eval vm_compute in int_truediv 3 10.
Definition f0_5 : float := Eval vm_compute in int_truediv 1 2.
Definition f0_7 : float := Eval vm_compute in int_truediv 7 10.
Definition f0_92 : float := Eval vm_compute in int_truediv 92 100.

(** The builtin [min(x, y)] on two floats: [y] when [y < x], else [x]. *)
Definition py_min (x y : float) : float := if flt y x then y else x.

(** Zero of either sign, a positive finite number or plus infinity. *)
Definition nonneg (x : float) : Prop :=
  match x with
  | S754_zero _ => True
  | S754_infinity s | S754_finite s _ _ => s = false
  | S754_nan => False
  end.

End PyFloat.
Import PyFloat.

(** ** Python strings *)

Module PyStr.

Definition nl : ascii := ascii_of_N 10.

(** [len(s)] *)
Definition len {A : Type} (s : list A) : Z := Z.of_nat (length s).

(** Truth value of a string or list: non-empty. *)
Definition truthy {A : Type} (s : list A) : bool :=
  match s with [] => false | _ :: _ => true end.

(** [c.isspace()]: TAB..CR, FS..US, space, NEL and NBSP. *)
Definition isspace (c : ascii) : bool :=
  let n := N_of_ascii c in
  (((9 <=? n) && (n <=? 13)) || ((28 <=? n) && (n <=? 32))
   || (n =? 133) || (n =? 160))%N.

(** [c.isdecimal()], the class [\d]. *)
Definition isdecimal (c : ascii) : bool :=
  let n := N_of_ascii c in ((48 <=? n) && (n <=? 57))%N.

(** [c.lower()]: A..Z and the accented capitals 192..222 (except the
    multiplication sign 215) move up by 32. *)
Definition lower_char (c : ascii) : ascii :=
  let n := N_of_ascii c in
  if (((65 <=? n) && (n <=? 90))
      || ((192 <=? n) && (n <=? 222) && negb (n =? 215)))%N
  then ascii_of_N (n + 32) else c.

Definition lower (s : text) : text := map lower_char s.

Fixpoint lstrip (s : text) : text :=
  match s with
  | c :: s' => if isspace c then lstrip s' else s
  | [] => []
  end.

Definition rstrip (s : text) : text := rev (lstrip (rev s)).

(** [s.strip()] *)
Definition strip (s : text) : text := rstrip (lstrip s).

(** [s.split()]: the maximal runs of non-whitespace characters; [cur] is
    the run being read. *)
Fixpoint split_go (cur : text) (s : text) : list text :=
  match s with
  | [] => if truthy cur then [cur] else []
  | c :: s' =>
      if isspace c
      then (if truthy cur then cur :: split_go [] s' else split_go [] s')
      else split_go (cur ++ [c]) s'
  end.

Definition split (s : text) : list text := split_go [] s.

(** [sep.join(parts)] *)
Fixpoint join (sep : text) (parts : list text) : text :=
  match parts with
  | [] => []
  | p :: ps =>
      match ps with
      | [] => p
      | _ :: _ => p ++ sep ++ join sep ps
      end
  end.

End PyStr.
Import PyStr.

(** ** The [re] patterns of the sources

    A backtracking matcher in the order Python tries alternatives: a
    position is the character just before it (for [^] and the look-behind)
    and the rest of the subject; [run r p] lists the positions where a
    match of [r] started at [p] can end, the preferred one first. *)

Module Re.

Inductive regex : Type :=
| Eps                               (* the empty pattern *)
| Cls (p : ascii -> bool)           (* one character of a class *)
| Seq (a b : regex)                 (* ab *)
| Alt (a b : regex)                 (* a|b *)
| Star (a : regex)                  (* a*, greedy *)
| Bol                               (* ^ under re.MULTILINE *)
| Eol                               (* $ under re.MULTILINE *)
| Behind (p : ascii -> bool).       (* (?<=[...]) *)

Definition Plus (a : regex) : regex := Seq a (Star a).
Definition Opt (a : regex) : regex := Alt a Eps.
Definition Chr (c : ascii) : regex := Cls (Ascii.eqb c).

Definition position : Type := option ascii * text.

Definition at_bol (p : position) : bool :=
  match fst p with None => true | Some c => Ascii.eqb c nl end.

Definition at_eol (p : position) : bool :=
  match snd p with [] => true | c :: _ => Ascii.eqb c nl end.

Fixpoint run (r : regex) (p : position) {struct r} : list position :=
  match r with
  | Eps => [p]
  | Cls f =>
      match snd p with
      | c :: s' => if f c then [(Some c, s')] else []
      | [] => []
      end
  | Seq a b => flat_map (run b) (run a p)
  | Alt a b => run a p ++ run b p
  | Star a =>
      (fix iterate (fuel : nat) (p : position) {struct fuel} : list position :=
         match fuel with
         | O => [p]
         | S fuel' =>
             flat_map
               (fun q =>
                  if (length (snd q) <? length (snd p))%nat
                  then iterate fuel' q else [])
               (run a p)
             ++ [p]
         end) (length (snd p)) p
  | Bol => if at_bol p then [p] else []
  | Eol => if at_eol p then [p] else []
  | Behind f =>
      match fst p with
      | Some c => if f c then [p] else []
      | None => []
      end
  end.

(** The number of characters of the match Python finds at a position. *)
Definition match_at (r : regex) (prev : option ascii) (s : text) : option nat :=
  match run r (prev, s) with
  | q :: _ => Some (length s - length (snd q))%nat
  | [] => None
  end.

Fixpoint search_from (r : regex) (prev : option ascii) (s : text) : bool :=
  match match_at r prev s with
  | Some _ => true
  | None =>
      match s with
      | [] => false
      | c :: s' => search_from r (Some c) s'
      end
  end.

(** [re.search(r, s) is not None] *)
Definition search (r : regex) (s : text) : bool := search_from r None s.

(** [re.split(r, s)] for a pattern without groups whose matches are never
    empty: [cur] is the piece being read, [skip] the number of characters
    of the current match that remain to be passed. *)
Fixpoint split_from (r : regex) (prev : option ascii) (skip : nat)
    (cur : text) (s : text) : list text :=
  match s with
  | [] => [cur]
  | c :: s' =>
      match skip with
      | S k => split_from r (Some c) k cur s'
      | O =>
          match match_at r prev s with
          | Some (S k) => cur :: split_from r (Some c) k [] s'
          | _ => split_from r (Some c) 0 (cur ++ [c]) s'
          end
      end
  end.

Definition split (r : regex) (s : text) : list text := split_from r None 0 [] s.

(** [\n\s*\n] *)
Definition blank_line : regex :=
  Seq (Chr nl) (Seq (Star (Cls isspace)) (Chr nl)).

(** [(?<=[.!?])\s+] *)
Definition sentence_end : regex :=
  Seq (Behind (fun c => Ascii.eqb c "." || Ascii.eqb c "!" || Ascii.eqb c "?"))
      (Plus (Cls isspace)).

(** [(^\s*[-*\d]\.?\s|```|:\s*$)] under re.MULTILINE *)
Definition structure_marker : regex :=
  Alt (Seq Bol
        (Seq (Star (Cls isspace))
          (Seq (Cls (fun c => Ascii.eqb c "-" || Ascii.eqb c "*" || isdecimal c))
            (Seq (Opt (Chr ".")) (Cls isspace)))))
   (Alt (Seq (Chr "`") (Seq (Chr "`") (Chr "`")))
        (Seq (Chr ":") (Seq (Star (Cls isspace)) Eol))).

(** [\d+] *)
Definition digits : regex := Plus (Cls isdecimal).

End Re.

(** ** intelligence.py *)

Definition SIMILARITY_THRESHOLD : float := f0_92.
Definition DEFAULT_CHUNK_SIZE : Z := 500.

Definition _split_sentences (t : text) : list text :=
  map strip (List.filter (fun p => truthy (strip p)) (Re.split Re.sentence_end t)).

Definition paragraph_sep : text := [nl; nl].
Definition sentence_sep : text := [" "%char].

(** The inner [for sent in sentences] loop of [chunk_text]. *)
Fixpoint sentence_loop (max_chunk_size : Z) (sentences : list text)
    (chunks sentence_buf : list text) (sentence_size : Z)
  : list text * list text :=
  match sentences with
  | [] => (chunks, sentence_buf)
  | sent :: rest =>
      if (sentence_size + len sent >? max_chunk_size)%Z && truthy sentence_buf
      then sentence_loop max_chunk_size rest
             (chunks ++ [join sentence_sep sentence_buf]) [sent] (len sent)
      else sentence_loop max_chunk_size rest
             chunks (sentence_buf ++ [sent]) (sentence_size + len sent)%Z
  end.

(** The outer [for para in paragraphs] loop of [chunk_text]. *)
Fixpoint paragraph_loop (max_chunk_size : Z) (paragraphs : list text)
    (chunks current_parts : list text) (current_size : Z)
  : list text * list text :=
  match paragraphs with
  | [] => (chunks, current_parts)
  | para :: rest =>
      if (len para >? max_chunk_size)%Z then
        let '(chunks, current_parts, current_size) :=
          if truthy current_parts
          then (chunks ++ [join paragraph_sep current_parts], [], 0%Z)
          else (chunks, current_parts, current_size) in
        let '(chunks, sentence_buf) :=
          sentence_loop max_chunk_size (_split_sentences para) chunks [] 0 in
        let chunks :=
          if truthy sentence_buf
          then chunks ++ [join sentence_sep sentence_buf] else chunks in
        paragraph_loop max_chunk_size rest chunks current_parts current_size
      else
        let '(chunks, current_parts, current_size) :=
          if (current_size + len para >? max_chunk_size)%Z && truthy current_parts
          then (chunks ++ [join paragraph_sep current_parts], [], 0%Z)
          else (chunks, current_parts, current_size) in
        paragraph_loop max_chunk_size rest
          chunks (current_parts ++ [para]) (current_size + len para)%Z
  end.

Definition chunk_text (t : text) (max_chunk_size : Z) : list text :=
  let paragraphs :=
    map strip (List.filter (fun p => truthy (strip p)) (Re.split Re.blank_line t)) in
  if negb (truthy paragraphs) then
    (if truthy (strip t) then [strip t] else [ [] ])
  else
    let '(chunks, current_parts) :=
      paragraph_loop max_chunk_size paragraphs [] [] 0 in
    let chunks :=
      if truthy current_parts
      then chunks ++ [join paragraph_sep current_parts] else chunks in
    if truthy chunks then chunks else [t].

Definition compute_importance (t : text) : float :=
  let words := PyStr.split (lower t) in
  if negb (truthy words) then f0
  else
    let unique_ratio :=
      int_truediv (Z.of_nat (size (list_to_set words : gset text))) (len words) in
    let length_score := py_min (fdiv (float_of_int (len words)) f100) f1 in
    let structure_bonus := if Re.search Re.structure_marker t then f0_1 else f0 in
    let fact_bonus := if Re.search Re.digits t then f0_1 else f0 in
    let score :=
      fadd (fadd (fadd (fmul unique_ratio f0_5) (fmul length_score f0_3))
                 structure_bonus) fact_bonus in
    py_min score f1.

(** [min(range(len(ds)), key=lambda i: ds[i])] after the first element:
    the builtin keeps the first index and replaces it only by a strictly
    smaller key. *)
Fixpoint min_index_from (best : nat) (best_key : float) (i : nat)
    (rest : list float) : nat :=
  match rest with
  | [] => best
  | d :: rest' =>
      if flt d best_key
      then min_index_from i d (S i) rest'
      else min_index_from best best_key (S i) rest'
  end.

Definition deduplicate_content (candidate : text) (existing_documents : list text)
    (existing_distances : list float) (threshold : float) : bool * option nat :=
  match existing_distances with
  | [] => (false, None)
  | d0 :: rest =>
      let best_idx := min_index_from 0 d0 1 rest in
      let similarity := fsub f1 (nth best_idx existing_distances S754_nan) in
      (fge similarity threshold, Some best_idx)
  end.

(** ** The ChromaDB collection seen from the repository

    A metadata value is one of the scalars ChromaDB stores.  A query answers
    with parallel arrays [ids], [documents], [metadatas], [distances] of one
    common length; a [hit] is one row of them.  The metadata of a row is
    [None] when the entry was stored without any. *)

Inductive value : Type :=
| VStr (s : string)
| VInt (n : Z)
| VFloat (x : float)
| VBool (b : bool).

Abbreviation metadata := (gmap string value).

Record hit : Type := Hit {
  hit_id : string;
  hit_document : text;
  hit_metadata : option metadata;
  hit_distance : float }.

(** The write requests a [VectorStore] forwards to its collection. *)
Inductive call : Type :=
| Add (id : string) (document : text) (metadatas : option metadata)
| Update (id : string) (document : text) (metadatas : option metadata)
| Delete (id : string).

(** What lies outside the repository: the answers of the collection after
    a given history of write requests, the values [uuid.uuid4()] yields
    (the n-th draw) and the parser behind [float(s)] for a string [s]
    ([None] when it raises).  Counts and the [n_results] the collection
    accepts are natural numbers: it rejects a negative [n_results].  The
    last two fields are the interpreter's [list.sort] on keys that hold a
    NaN, where [<] is no order and the arrangement it leaves depends on the
    run of its algorithm: all that is known of it is that it rearranges. *)
Class Env : Type := {
  collection_count : list call -> nat;
  collection_query : list call -> text -> nat -> list hit;
  uuid4 : nat -> string;
  float_of_str : string -> option float;
  sort_unordered : forall A : Type, list (float * A) -> list (float * A);
  sort_unordered_perm :
    forall (A : Type) (l : list (float * A)), sort_unordered A l ≡ₚ l }.

(** A [MemoryManager] with its [VectorStore]: the configured threshold, the
    requests sent to the collection so far (oldest first) and the number of
    identifiers drawn so far. *)
Record MemoryManager : Type := Manager {
  similarity_threshold : float;
  sent : list call;
  drawn : nat }.

(** A retrieved memory: the dict with keys [id], [content], [metadata],
    [similarity]. *)
Record memory : Type := Memory {
  mem_id : string;
  mem_content : text;
  mem_metadata : metadata;
  mem_similarity : float }.

(** [[metadata] if metadata else None] *)
Definition metadatas_arg (m : metadata) : option metadata :=
  if decide (m = ∅) then None else Some m.

(** [list.sort(key=..., reverse=True)] on decorated items whose keys are
    numbers: the sort is stable, compares keys with [<] only, and
    [reverse=True] keeps the original order of items with equal keys.  Its
    result is then the stable descending arrangement, built here by
    insertion from the right. *)
Fixpoint insert_desc {A : Type} (x : float * A) (l : list (float * A))
  : list (float * A) :=
  match l with
  | [] => [x]
  | y :: l' => if flt (fst x) (fst y) then y :: insert_desc x l' else x :: l
  end.

Fixpoint sort_desc {A : Type} (l : list (float * A)) : list (float * A) :=
  match l with
  | [] => []
  | x :: l' => insert_desc x (sort_desc l')
  end.

(** [l[:stop]] *)
Definition slice_to {A : Type} (l : list A) (stop : Z) : list A :=
  if (0 <=? stop)%Z then firstn (Z.to_nat stop) l
  else firstn (length l - Z.to_nat (- stop)) l.

Section Coordinator.
Context {env : Env}.

(** [list.sort(key=..., reverse=True)] on decorated items. *)
Definition list_sort_reverse {A : Type} (l : list (float * A))
  : list (float * A) :=
  if forallb (fun x => negb (is_nan (fst x))) l
  then sort_desc l else sort_unordered A l.

(** *** store.py *)

Definition VectorStore_count (self : MemoryManager) : nat :=
  collection_count (sent self).

Definition VectorStore_query (self : MemoryManager) (query_text : text)
    (n_results : nat) : list hit :=
  let n := Nat.min n_results (VectorStore_count self) in
  if (n =? 0)%nat then [] else collection_query (sent self) query_text n.

Definition VectorStore_add (self : MemoryManager) (id : string)
    (document : text) (meta : metadata) : MemoryManager :=
  {| similarity_threshold := similarity_threshold self;
     sent := sent self ++ [Add id document (metadatas_arg meta)];
     drawn := drawn self |}.

Definition VectorStore_update (self : MemoryManager) (id : string)
    (document : text) (meta : metadata) : MemoryManager :=
  {| similarity_threshold := similarity_threshold self;
     sent := sent self ++ [Update id document (metadatas_arg meta)];
     drawn := drawn self |}.

Definition VectorStore_delete (self : MemoryManager) (id : string)
  : MemoryManager :=
  {| similarity_threshold := similarity_threshold self;
     sent := sent self ++ [Delete id];
     drawn := drawn self |}.

(** *** intelligence.py, [generate_id] *)

Definition generate_id (self : MemoryManager) : string * MemoryManager :=
  (uuid4 (drawn self),
   {| similarity_threshold := similarity_threshold self;
      sent := sent self;
      drawn := S (drawn self) |}).

(** *** memory.py *)

(** [None] stands for the [IndexError] of [results["ids"][0][best_idx]]. *)
Definition _store_with_dedup (self : MemoryManager) (content : text)
    (meta : metadata) : option (MemoryManager * string) :=
  if (VectorStore_count self =? 0)%nat then
    let '(new_id, self) := generate_id self in
    Some (VectorStore_add self new_id content meta, new_id)
  else
    let results := VectorStore_query self content 1 in
    let distances := map hit_distance results in
    let '(is_dup, best_idx) :=
      deduplicate_content content (map hit_document results) distances
        (similarity_threshold self) in
    match is_dup, best_idx with
    | true, Some best_idx =>
        match results !! best_idx with
        | Some h =>
            let existing_id := hit_id h in
            let existing_doc := hit_document h in
            let merged :=
              if (len content >=? len existing_doc)%Z
              then content else existing_doc in
            Some (VectorStore_update self existing_id merged meta, existing_id)
        | None => None
        end
    | _, _ =>
        let '(new_id, self) := generate_id self in
        Some (VectorStore_add self new_id content meta, new_id)
    end.

(** The body of [for chunk in chunks] in [store]. *)
Definition store_chunk (self : MemoryManager) (base_meta : metadata)
    (chunk : text) : option (MemoryManager * string) :=
  let chunk_meta := <["importance" := VFloat (compute_importance chunk)]> base_meta in
  _store_with_dedup self chunk chunk_meta.

Fixpoint store_chunks (self : MemoryManager) (base_meta : metadata)
    (chunks : list text) (stored_ids : list string)
  : option (MemoryManager * list string) :=
  match chunks with
  | [] => Some (self, stored_ids)
  | chunk :: rest =>
      match store_chunk self base_meta chunk with
      | Some (self, mem_id) =>
          store_chunks self base_meta rest (stored_ids ++ [mem_id])
      | None => None
      end
  end.

(** [session_id or "unknown"] *)
Definition session_tag (session_id : option string) : string :=
  match session_id with
  | Some s => if decide (s = EmptyString) then "unknown" else s
  | None => "unknown"
  end.

Definition base_metadata (content : text) (meta : option metadata)
    (session_id : option string) (now : float) : metadata :=
  let base_meta : metadata :=
    <["importance" := VFloat (compute_importance content)]>
      (<["session_id" := VStr (session_tag session_id)]>
        (<["timestamp" := VFloat now]> ∅)) in
  match meta with
  | Some m => if decide (m = ∅) then base_meta else m ∪ base_meta
  | None => base_meta
  end.

Definition chunks_of (content : text) (auto_chunk : bool) : list text :=
  if auto_chunk && (len content >? 500)%Z
  then chunk_text content DEFAULT_CHUNK_SIZE else [content].

(** [now] is the value [time.time()] returns during the call. *)
Definition store (self : MemoryManager) (content : text)
    (meta : option metadata) (session_id : option string)
    (auto_chunk : bool) (now : float)
  : option (MemoryManager * list string) :=
  let base_meta := base_metadata content meta session_id now in
  let chunks := chunks_of content auto_chunk in
  store_chunks self base_meta chunks [].

(** [float(v)]; [None] when it raises. *)
Definition py_float (v : value) : option float :=
  match v with
  | VFloat x => Some x
  | VInt n =>
      match float_of_int n with
      | S754_infinity _ => None
      | x => Some x
      end
  | VBool b => Some (if b then f1 else f0)
  | VStr s => float_of_str s
  end.

(** [float(meta.get("importance", 0.0))] *)
Definition importance_of (meta : metadata) : option float :=
  match meta !! "importance" with
  | Some v => py_float v
  | None => Some f0
  end.

(** The [for i, doc in enumerate(docs)] loop of [retrieve]; [None] stands
    for the [AttributeError] of [meta.get] on a row without metadata and
    for the error of [float()]. *)
Fixpoint collect (min_importance : float) (results : list hit)
    (memories : list memory) : option (list memory) :=
  match results with
  | [] => Some memories
  | h :: rest =>
      match hit_metadata h with
      | None => None
      | Some meta =>
          match importance_of meta with
          | None => None
          | Some importance =>
              if flt importance min_importance
              then collect min_importance rest memories
              else collect min_importance rest
                     (memories ++ [Memory (hit_id h) (hit_document h)
                                     meta (fsub f1 (hit_distance h))])
          end
      end
  end.

(** The sort key of [retrieve]. *)
Definition blended (m : memory) : option float :=
  match importance_of (mem_metadata m) with
  | Some importance =>
      Some (fadd (fmul (mem_similarity m) f0_7) (fmul importance f0_3))
  | None => None
  end.

(** The keys are computed for all items before any comparison. *)
Fixpoint decorate (memories : list memory) : option (list (float * memory)) :=
  match memories with
  | [] => Some []
  | m :: rest =>
      match blended m, decorate rest with
      | Some k, Some l => Some ((k, m) :: l)
      | _, _ => None
      end
  end.

(** [n_results] is any int.  [VectorStore_query] stands for [query] on a
    count that is not negative; a negative [fetch_n] goes through [query] to
    the collection, which rejects it: [None]. *)
Definition retrieve (self : MemoryManager) (query : text) (n_results : Z)
    (min_importance : float) : option (list memory) :=
  if (VectorStore_count self =? 0)%nat then Some []
  else
    let fetch_n := Z.min (n_results * 3) (Z.of_nat (VectorStore_count self)) in
    if (fetch_n <? 0)%Z then None
    else
      let results := VectorStore_query self query (Z.to_nat fetch_n) in
      match collect min_importance results [] with
      | None => None
      | Some memories =>
          match decorate memories with
          | None => None
          | Some keyed =>
              Some (slice_to (map snd (list_sort_reverse keyed)) n_results)
          end
      end.

End Coordinator.

(** * Vocabulary of the statements *)

(** [key] at index [best] is a first minimum of [ds]: no element is
    smaller and no earlier element is equal. *)
Definition is_first_min (ds : list float) (best : nat) (key : float) : Prop :=
  ds !! best = Some key
  /\ (forall j d, ds !! j = Some d -> flt d key = false)
  /\ (forall j d, (j < best)%nat -> ds !! j = Some d -> feq d key = false).

(** The text kept on a merge: the new content unless the existing document
    is strictly longer. *)
Definition merged_text (content existing_doc : text) : text :=
  if (len content >=? len existing_doc)%Z then content else existing_doc.

(** The stable descending arrangement of a list by a key: each item, taken
    from the right, is put before the first item whose key it does not
    fall below. *)
Fixpoint insert_by {A : Type} (key : A -> float) (x : A) (l : list A) : list A :=
  match l with
  | [] => [x]
  | y :: l' => if flt (key x) (key y) then y :: insert_by key x l' else x :: l
  end.

Fixpoint sort_by {A : Type} (key : A -> float) (l : list A) : list A :=
  match l with
  | [] => []
  | x :: l' => insert_by key x (sort_by key l')
  end.

(** [a] may stand before [b] in a list that descends by [key]. *)
Definition descending {A : Type} (key : A -> float) (a b : A) : Prop :=
  fle (key b) (key a) = true.

Section Vocabulary.
Context {env : Env}.

(** [ids] are the identifiers [store_chunk] returns for [chunks], one per
    chunk and in their order, each chunk meeting the state its predecessor
    left. *)
Inductive stored_in_order (base_meta : metadata)
  : MemoryManager -> list text -> list string -> MemoryManager -> Prop :=
| stored_nil (self : MemoryManager) : stored_in_order base_meta self [] [] self
| stored_cons (self self1 self' : MemoryManager) (chunk : text)
    (rest : list text) (mem_id : string) (ids : list string) :
    store_chunk self base_meta chunk = Some (self1, mem_id) ->
    stored_in_order base_meta self1 rest ids self' ->
    stored_in_order base_meta self (chunk :: rest) (mem_id :: ids) self'.

(** A stored value is a number, or a string [float()] accepts. *)
Definition value_readable (v : value) : bool :=
  match v with
  | VFloat _ | VBool _ => true
  | VInt n =>
      match float_of_int n with
      | S754_infinity _ => false
      | _ => true
      end
  | VStr s =>
      match float_of_str s with
      | Some _ => true
      | None => false
      end
  end.

(** The number a stored value stands for. *)
Definition value_number (v : value) : float :=
  match v with
  | VFloat x => x
  | VInt n => float_of_int n
  | VBool b => if b then f1 else f0
  | VStr s => default f0 (float_of_str s)
  end.

(** The row carries metadata, and what they hold under [importance], if
    anything, is readable. *)
Definition row_readable (h : hit) : bool :=
  match hit_metadata h with
  | Some meta =>
      match meta !! "importance" with
      | Some v => value_readable v
      | None => true
      end
  | None => false
  end.

(** The importance of a row: the number stored under [importance], [0.0]
    when there is none. *)
Definition row_importance (h : hit) : float :=
  match hit_metadata h with
  | Some meta =>
      match meta !! "importance" with
      | Some v => value_number v
      | None => f0
      end
  | None => f0
  end.

(** The similarity of a row. *)
Definition row_similarity (h : hit) : float := fsub f1 (hit_distance h).

(** [similarity * 0.7 + importance * 0.3] *)
Definition score (h : hit) : float :=
  fadd (fmul (row_similarity h) f0_7) (fmul (row_importance h) f0_3).

(** The rows that pass the importance filter, in index-query order. *)
Definition surviving (min_importance : float) (results : list hit) : list hit :=
  List.filter (fun h => negb (flt (row_importance h) min_importance)) results.

(** The memory [m] is the candidate of the row [h]: its id, document and
    metadata, with the similarity of the row. *)
Definition built_from (m : memory) (h : hit) : Prop :=
  mem_id m = hit_id h
  /\ mem_content m = hit_document h
  /\ Some (mem_metadata m) = hit_metadata h
  /\ mem_similarity m = row_similarity h.

(** The candidate [retrieve] builds from a row that carries metadata. *)
Definition candidate_of (h : hit) : memory :=
  Memory (hit_id h) (hit_document h) (default ∅ (hit_metadata h))
    (row_similarity h).

(** The rows the index answers when [retrieve] over-fetches. *)
Definition fetched (self : MemoryManager) (query : text) (n_results : Z)
  : list hit :=
  VectorStore_query self query
    (Z.to_nat (Z.min (n_results * 3) (Z.of_nat (VectorStore_count self)))).

End Vocabulary.

(** What [store] writes for one chunk, given the metadata [m] of the caller:
    an addition or an update whose metadata carries every key of the caller
    but [importance] with the caller's value, and the score of the chunk
    under [importance]. *)
Definition writes_for (m : metadata) (c : call) (chunk : text) : Prop :=
  exists id doc written,
    (c = Add id doc (Some written) \/ c = Update id doc (Some written))
    /\ (forall k v, m !! k = Some v -> k <> "importance" -> written !! k = Some v)
    /\ written !! "importance" = Some (VFloat (compute_importance chunk)).

(** *** An index for the examples

    It holds [count] entries and answers every query with the first rows of
    [hits]; identifiers are drawn as m, m', m'', ... *)

Fixpoint tally (n : nat) : string :=
  match n with
  | O => "m"
  | S k => append (tally k) "'"
  end.

Definition canned_index (count : nat) (hits : list hit) : Env :=
  {| collection_count := fun _ => count;
     collection_query := fun _ _ n => firstn n hits;
     uuid4 := tally;
     float_of_str := fun _ => None;
     sort_unordered := fun _ l => l;
     sort_unordered_perm := fun _ l => reflexivity l |}.

(** A fresh manager with the default threshold. *)
Definition fresh : MemoryManager := Manager SIMILARITY_THRESHOLD [] 0.

(** An index left by an earlier session: one entry, which every query finds
    at distance 0.05. *)
Definition shelf : Env :=
  canned_index 1 [Hit "m" (str "alpha beta 7") (Some ∅) (int_truediv 5 100)].

(** An empty index. *)
Definition empty_index : Env := canned_index 0 [].

(** An index of three entries: [a] and [c] at distance 0.1 with importance
    0.1, between them [b] at distance 0.2 with importance 0.9. *)
Definition library : Env :=
  canned_index 3
    [Hit "a" (str "first") (Some {["importance" := VFloat f0_1]}) f0_1;
     Hit "b" (str "second") (Some {["importance" := VFloat (int_truediv 9 10)]})
         (int_truediv 2 10);
     Hit "c" (str "third") (Some {["importance" := VFloat f0_1]}) f0_1].

(** An index of two entries, the first stored without metadata. *)
Definition bare : Env :=
  canned_index 2
    [Hit "a" (str "first") None f0_1;
     Hit "b" (str "second") (Some {["importance" := VFloat f0_5]}) f0_1].

(** An index of one entry whose importance is a word. *)
Definition labelled : Env :=
  canned_index 1
    [Hit "a" (str "first") (Some {["importance" := VStr "high"]}) f0_1].

(** * Further vocabulary *)

(** The characters of a text that are not whitespace, in order. *)
Definition solid (s : text) : text := List.filter (fun c => negb (isspace c)) s.

(** Every character a match of [r] can pass over belongs to the class [P]. *)
Fixpoint consumes (P : ascii -> bool) (r : Re.regex) : Prop :=
  match r with
  | Re.Eps | Re.Bol | Re.Eol | Re.Behind _ => True
  | Re.Cls f => forall c, f c = true -> P c = true
  | Re.Seq a b | Re.Alt a b => consumes P a /\ consumes P b
  | Re.Star a => consumes P a
  end.

(** The classes of [r] do not tell a character [c] from [f c]. *)
Fixpoint blind (f : ascii -> ascii) (r : Re.regex) : Prop :=
  match r with
  | Re.Eps | Re.Bol | Re.Eol => True
  | Re.Cls g | Re.Behind g => forall c, g (f c) = g c
  | Re.Seq a b | Re.Alt a b => blind f a /\ blind f b
  | Re.Star a => blind f a
  end.

(** A position of the matcher in the text mapped through [f]. *)
Definition map_position (f : ascii -> ascii) (p : Re.position) : Re.position :=
  (option_map f (fst p), map f (snd p)).

(** The text is empty or begins with a character that is not whitespace. *)
Definition headed (s : text) : bool :=
  match s with
  | [] => true
  | c :: _ => negb (isspace c)
  end.

(** A non-empty text whose first and last characters are not whitespace. *)
Definition edged (s : text) : bool :=
  truthy s && headed s && headed (rev s).

(** The identifier a request is about. *)
Definition call_id (c : call) : string :=
  match c with
  | Add id _ _ | Update id _ _ | Delete id => id
  end.

(** The identifiers of the additions among some requests, in order. *)
Fixpoint added (calls : list call) : list string :=
  match calls with
  | [] => []
  | Add id _ _ :: rest => id :: added rest
  | _ :: rest => added rest
  end.

Definition is_delete (c : call) : bool :=
  match c with Delete _ => true | _ => false end.

(** The request [c] answers the chunk when the index has received
    [history]: it adds the chunk itself, or it updates a row the index
    finds for the chunk, with the longer of the chunk and the document of
    that row. *)
Definition request_for {env : Env} (history : list call) (chunk : text)
    (c : call) : Prop :=
  (exists m, c = Add (call_id c) chunk m)
  \/ (exists h m,
        In h (collection_query history chunk 1)
        /\ collection_count history <> 0%nat
        /\ c = Update (hit_id h) (merged_text chunk (hit_document h)) m).

(** The metadata [store] builds when the caller supplies none. *)
Definition default_metadata (now : float) (session_id : option string)
    (chunk : text) : metadata :=
  <["importance" := VFloat (compute_importance chunk)]>
    (<["session_id" := VStr (session_tag session_id)]>
      (<["timestamp" := VFloat now]> ∅)).

(** * The rest of the repository *)

(** ** store.py and memory.py: reading the collection *)

(** What [collection.get] answers: the values under [ids], [documents] and
    [metadatas] ([None] for a key that is absent or holds [None]); the
    metadata of a row is [None] when the row has none. *)
Record scan : Type := Scan {
  scan_ids : option (list string);
  scan_documents : option (list text);
  scan_metadatas : option (list (option metadata)) }.

(** A listed memory: the dict with keys [id], [content], [metadata]. *)
Record listed : Type := Listed {
  listed_id : string;
  listed_content : text;
  listed_metadata : option metadata }.

(** More that lies outside the repository: what [collection.get] answers
    after a history of requests (for the identifiers asked, or for all
    rows), the builtin [format(x, ".Nf")] on a float, and [json.dumps(...,
    indent=2)] on the two kinds of lists the front ends print. *)
Class Host : Type := {
  collection_get : list call -> option (list string) -> scan;
  format_fixed : nat -> float -> string;
  json_dumps_memories : list memory -> string;
  json_dumps_listed : list listed -> string }.

(** [x or y] on a list that may be [None]. *)
Definition py_or {A : Type} (x : option (list A)) (y : list A) : list A :=
  match x with
  | Some (a :: l) => a :: l
  | _ => y
  end.

(** [[{"id": ids[i], "content": docs[i], "metadata": metas[i]}
      for i in range(len(docs))]]; [None] stands for the [IndexError]. *)
Fixpoint listed_rows (ids : list string) (docs : list text)
    (metas : list (option metadata)) {struct docs} : option (list listed) :=
  match docs with
  | [] => Some []
  | doc :: docs' =>
      match ids, metas with
      | id :: ids', meta :: metas' =>
          match listed_rows ids' docs' metas' with
          | Some rows => Some (Listed id doc meta :: rows)
          | None => None
          end
      | _, _ => None
      end
  end.

(** [str(n)] for a natural number. *)
Definition str_of_nat (n : nat) : string := NilZero.string_of_uint (Nat.to_uint n).

Section Reading.
Context {env : Env} {host : Host}.

Definition VectorStore_get (self : MemoryManager) (id : string) : scan :=
  collection_get (sent self) (Some [id]).

Definition VectorStore_get_all (self : MemoryManager) : scan :=
  collection_get (sent self) None.

Definition MemoryManager_delete (self : MemoryManager) (memory_id : string)
  : MemoryManager :=
  VectorStore_delete self memory_id.

Definition MemoryManager_count (self : MemoryManager) : nat :=
  VectorStore_count self.

Definition list_all (self : MemoryManager) (limit : Z) : option (list listed) :=
  let result := VectorStore_get_all self in
  let ids := py_or (scan_ids result) [] in
  let docs := py_or (scan_documents result) [] in
  let metas := py_or (scan_metadatas result) (repeat (Some ∅) (length docs)) in
  match listed_rows ids docs metas with
  | Some memories => Some (slice_to memories limit)
  | None => None
  end.

End Reading.

(** A host for the examples: [get] answers with a fixed scan, and the
    formatting builtins print nothing. *)
Definition canned_host (answer : scan) : Host :=
  {| collection_get := fun _ _ => answer;
     format_fixed := fun _ _ => EmptyString;
     json_dumps_memories := fun _ => EmptyString;
     json_dumps_listed := fun _ => EmptyString |}.

(** Three rows, the metadatas missing. *)
Definition three_rows : Host :=
  canned_host (Scan (Some ["a"; "b"; "c"]%string)
                    (Some [str "first"; str "second"; str "third"]) None).

(** ** cli.py *)

(** The parsed arguments of a sub-command ([argparse] is outside the
    repository). *)
Inductive command : Type :=
| CmdStore (text : option text) (session : option string) (no_chunk : bool)
| CmdRetrieve (query : text) (n : Z) (min_importance : float) (as_json : bool)
| CmdList (limit : Z) (as_json : bool)
| CmdDelete (id : string)
| CmdCount.

(** What a run of [main] leaves: the return code, the lines printed on
    standard output and on standard error, and the manager. *)
Record outcome : Type := Outcome {
  exit_code : Z;
  stdout : list string;
  stderr : list string;
  manager_after : MemoryManager }.

(** A text as it is printed. *)
Definition show (t : text) : string := string_of_list_ascii t.

(** Truth value of a metadata value. *)
Definition value_truthy (v : value) : bool :=
  match v with
  | VStr s => negb (String.eqb s EmptyString)
  | VInt n => negb (n =? 0)%Z
  | VFloat x => negb (feq x f0)
  | VBool b => b
  end.

Section FrontEnds.
Context {env : Env} {host : Host}.

(** [format(v, ".Nf")]: a number is printed as a float, a string raises. *)
Definition format_value (digits : nat) (v : value) : option string :=
  match v with
  | VFloat x => Some (format_fixed digits x)
  | VInt n =>
      match float_of_int n with
      | S754_infinity _ => None
      | x => Some (format_fixed digits x)
      end
  | VBool b => Some (format_fixed digits (if b then f1 else f0))
  | VStr _ => None
  end.

(** The lines of [for i, r in enumerate(results, 1)] in [main]. *)
Fixpoint print_results (i : nat) (results : list memory) : option (list string) :=
  match results with
  | [] => Some []
  | r :: rest =>
      match format_value 3 (default (VInt 0) (mem_metadata r !! "importance")),
            print_results (S i) rest with
      | Some importance, Some lines =>
          Some (["[" +:+ str_of_nat i +:+ "] (similarity="
                   +:+ format_fixed 3 (mem_similarity r)
                   +:+ ", importance=" +:+ importance +:+ ")";
                 "    " +:+ show (firstn 200 (mem_content r));
                 "    id=" +:+ mem_id r;
                 EmptyString] ++ lines)
      | _, _ => None
      end
  end.

(** The first line printed for a listed memory. *)
Definition listed_header (m : listed) : option string :=
  match listed_metadata m with
  | None => None
  | Some meta =>
      let ts := default (VStr EmptyString) (meta !! "timestamp") in
      let imp := default (VInt 0) (meta !! "importance") in
      if value_truthy ts then
        match format_value 0 ts, format_value 3 imp with
        | Some ts, Some imp =>
            Some ("id=" +:+ listed_id m +:+ " ts=" +:+ ts
                    +:+ " importance=" +:+ imp)
        | _, _ => None
        end
      else
        match format_value 3 imp with
        | Some imp => Some ("id=" +:+ listed_id m +:+ " importance=" +:+ imp)
        | None => None
        end
  end.

(** The lines of [for m in memories] in [main]. *)
Fixpoint print_listed (memories : list listed) : option (list string) :=
  match memories with
  | [] => Some []
  | m :: rest =>
      match listed_header m, print_listed rest with
      | Some header, Some lines =>
          Some ([header; "    " +:+ show (firstn 120 (listed_content m));
                 EmptyString] ++ lines)
      | _, _ => None
      end
  end.

(** [main]: [stdin] is what [sys.stdin.read()] would return, [now] the
    time of the call; [None] stands for an exception. *)
Definition main (cmd : command) (stdin : text) (now : float) : option outcome :=
  let manager := fresh in
  match cmd with
  | CmdStore text session no_chunk =>
      let text := match text with Some t => t | None => stdin end in
      if negb (truthy (strip text)) then
        Some (Outcome 1 [] ["Error: no text provided."%string] manager)
      else
        match store manager text None session (negb no_chunk) now with
        | Some (manager, ids) =>
            Some (Outcome 0
                    ["Stored " +:+ str_of_nat (length ids)
                       +:+ " memory chunk(s): " +:+ String.concat ", " ids]
                    [] manager)
        | None => None
        end
  | CmdRetrieve query n min_importance as_json =>
      match retrieve manager query n min_importance with
      | None => None
      | Some results =>
          if negb (truthy results) then
            Some (Outcome 0 ["No memories found."%string] [] manager)
          else if as_json then
            Some (Outcome 0 [json_dumps_memories results] [] manager)
          else
            match print_results 1 results with
            | Some lines => Some (Outcome 0 lines [] manager)
            | None => None
            end
      end
  | CmdList limit as_json =>
      match list_all manager limit with
      | None => None
      | Some memories =>
          if negb (truthy memories) then
            Some (Outcome 0 ["No memories stored."%string] [] manager)
          else if as_json then
            Some (Outcome 0 [json_dumps_listed memories] [] manager)
          else
            match print_listed memories with
            | Some lines => Some (Outcome 0 lines [] manager)
            | None => None
            end
      end
  | CmdDelete id =>
      let manager := MemoryManager_delete manager id in
      Some (Outcome 0 ["Deleted memory " +:+ id +:+ "."] [] manager)
  | CmdCount =>
      Some (Outcome 0 [str_of_nat (MemoryManager_count manager)] [] manager)
  end.

(** ** mcp_server.py

    The module keeps its manager in the global [_manager], [None] until the
    first use; a tool takes the global and gives it back. *)

Definition _get_manager (_manager : option MemoryManager) : MemoryManager :=
  match _manager with
  | Some manager => manager
  | None => fresh
  end.

Definition store_memory (_manager : option MemoryManager) (content : text)
    (session_id : string) (now : float)
  : option (option MemoryManager * string) :=
  match store (_get_manager _manager) content None (Some session_id) true now with
  | Some (manager, ids) =>
      let plural := if (length ids =? 1)%nat then "chunk" else "chunks" in
      Some (Some manager,
            "Stored " +:+ str_of_nat (length ids) +:+ " memory " +:+ plural
              +:+ ". IDs: " +:+ String.concat ", " ids)
  | None => None
  end.

Definition delete_memory (_manager : option MemoryManager) (memory_id : string)
  : option MemoryManager * string :=
  (Some (MemoryManager_delete (_get_manager _manager) memory_id),
   "Deleted memory " +:+ memory_id +:+ ".").

Definition count_memories (_manager : option MemoryManager)
  : option MemoryManager * string :=
  let n := MemoryManager_count (_get_manager _manager) in
  (Some (_get_manager _manager),
   str_of_nat n +:+ " " +:+ (if (n =? 1)%nat then "memory" else "memories")
     +:+ " stored.").

End FrontEnds.

(** * Facts about the embedding *)

(** ** The string functions on sample inputs *)

Section Samples.

Example split_on_blank_lines :
  Re.split Re.blank_line (str "a" ++ [nl; " "%char; nl; nl] ++ str " b" ++ [nl] ++ str "c")
  = [str "a"; str " b" ++ [nl] ++ str "c"].
Proof. vm_compute. reflexivity. Qed.

Example split_sentences_sample :
  _split_sentences (str "One. Two!  Three? Four.five")
  = [str "One."; str "Two!"; str "Three?"; str "Four.five"].
Proof. vm_compute. reflexivity. Qed.

Example structure_marker_samples :
  Re.search Re.structure_marker (str "- item") = true
  /\ Re.search Re.structure_marker (str "intro" ++ [nl] ++ str "  2. second") = true
  /\ Re.search Re.structure_marker (str "def foo():" ++ [nl] ++ str "    return 42") = true
  /\ Re.search Re.structure_marker (str "a - b: c") = false
  /\ Re.search Re.digits (str "the cat sat on 3 mats") = true
  /\ Re.search Re.digits (str "the cat sat on the mat") = false.
Proof. vm_compute. repeat split; reflexivity. Qed.

Example words_sample :
  PyStr.split (lower (str "  The the" ++ [nl] ++ str "CAT ")) = [str "the"; str "the"; str "cat"].
Proof. vm_compute. reflexivity. Qed.

Example chunk_text_empty : chunk_text [] 500 = [ [] ].
Proof. reflexivity. Qed.

Example chunk_text_five_paragraphs :
  let para := repeat "x"%char 100 in
  chunk_text (join paragraph_sep [para; para; para; para; para]) 100
  = [para; para; para; para; para].
Proof. vm_compute. reflexivity. Qed.

End Samples.

(** ** Order and sign of binary64 values *)

Section FloatOrder.

Ltac cmp_cases :=
  repeat match goal with
  | |- context [Z.compare ?a ?b] => destruct (Z.compare_spec a b)
  | H : context [Z.compare ?a ?b] |- _ => destruct (Z.compare_spec a b)
  | |- context [Pos.compare_cont Eq ?a ?b] =>
      change (Pos.compare_cont Eq a b) with (Pos.compare a b);
      destruct (Pos.compare_spec a b)
  | H : context [Pos.compare_cont Eq ?a ?b] |- _ =>
      change (Pos.compare_cont Eq a b) with (Pos.compare a b) in H;
      destruct (Pos.compare_spec a b)
  end.

Ltac float_cases :=
  intros;
  repeat match goal with x : spec_float |- _ => destruct x as [[]|[]| |[] ? ?] end;
  simpl in *; try congruence;
  cmp_cases; simplify_eq/=; try done; try lia.

Lemma compare_flip (x y : float) (c : comparison) :
  SFcompare x y = Some c -> SFcompare y x = Some (CompOpp c).
Proof. float_cases. Qed.

Lemma compare_lt_trans (x y z : float) :
  SFcompare x y = Some Lt -> SFcompare y z = Some Lt -> SFcompare x z = Some Lt.
Proof. float_cases. Qed.

Lemma compare_eq_l (x y z : float) :
  SFcompare x y = Some Eq -> SFcompare x z = SFcompare y z.
Proof. float_cases. Qed.

Lemma compare_total (x y : float) :
  is_nan x = false -> is_nan y = false -> exists c, SFcompare x y = Some c.
Proof. float_cases; eauto. Qed.

Lemma compare_refl (x : float) : is_nan x = false -> SFcompare x x = Some Eq.
Proof. float_cases. all: try (rewrite Pos.compare_refl in *; congruence). Qed.

End FloatOrder.

Section Rounding.

Lemma iter_pos_invariant {A : Type} (P : A -> Prop) (f : A -> A) :
  (forall x, P x -> P (f x)) -> forall n x, P x -> P (SpecFloat.iter_pos f n x).
Proof.
  intros Hf n. induction n as [n IH|n IH|]; intros x Hx; simpl; auto.
Qed.

Lemma shr_1_nonneg (mrs : shr_record) :
  (0 <= shr_m mrs)%Z -> (0 <= shr_m (shr_1 mrs))%Z.
Proof.
  destruct mrs as [m r s]; simpl.
  destruct m as [|[p|p|]|[p|p|]]; simpl; lia.
Qed.

Lemma shr_nonneg (mrs : shr_record) (e n : Z) :
  (0 <= shr_m mrs)%Z -> (0 <= shr_m (fst (shr mrs e n)))%Z.
Proof.
  intros H. destruct n as [|p|p]; simpl; auto.
  apply (iter_pos_invariant (fun r => (0 <= shr_m r)%Z)); auto using shr_1_nonneg.
Qed.

Lemma shr_fexp_nonneg (m e : Z) (l : location) :
  (0 <= m)%Z -> (0 <= shr_m (fst (shr_fexp prec emax m e l)))%Z.
Proof.
  intros H. unfold shr_fexp. apply shr_nonneg.
  destruct l as [|[]]; simpl; exact H.
Qed.

Lemma round_nearest_even_nonneg (m : Z) (l : location) :
  (0 <= m)%Z -> (0 <= round_nearest_even m l)%Z.
Proof.
  intros H. destruct l as [|[]]; simpl; try lia.
  destruct (Z.even m); lia.
Qed.

Lemma binary_round_aux_nonneg (m e : Z) (l : location) :
  (0 <= m)%Z -> nonneg (binary_round_aux prec emax false m e l).
Proof.
  intros H. unfold binary_round_aux.
  pose proof (shr_fexp_nonneg m e l H) as H1.
  destruct (shr_fexp prec emax m e l) as [mrs' e'] eqn:E1. simpl in H1.
  pose proof (shr_fexp_nonneg _ e' loc_Exact
                (round_nearest_even_nonneg _ (loc_of_shr_record mrs') H1)) as H2.
  destruct (shr_fexp prec emax _ e' loc_Exact) as [mrs'' e''] eqn:E2. simpl in H2.
  destruct (shr_m mrs'') as [|p|p]; [done| |lia].
  destruct (Z.leb e'' (emax - prec)); done.
Qed.

Lemma binary_round_nonneg (m : positive) (e : Z) :
  nonneg (binary_round prec emax false m e).
Proof.
  unfold binary_round.
  destruct (shl_align m e _) as [mz ez].
  apply binary_round_aux_nonneg. lia.
Qed.

Lemma float_of_int_nonneg (n : Z) : (0 <= n)%Z -> nonneg (float_of_int n).
Proof.
  intros H. unfold float_of_int, binary_normalize.
  destruct n as [|p|p]; [done | apply binary_round_nonneg | lia].
Qed.

Lemma fadd_nonneg (x y : float) : nonneg x -> nonneg y -> nonneg (fadd x y).
Proof.
  destruct x as [sx|sx| |sx mx ex], y as [sy|sy| |sy my ey]; simpl;
    intros Hx Hy; subst; try done.
  - destruct sx, sy; done.
  - unfold binary_normalize. simpl.
    apply binary_round_nonneg.
Qed.

Lemma fmul_nonneg (x y : float) :
  nonneg x -> nonneg y ->
  (forall s, x = S754_infinity s -> forall s', y <> S754_zero s') ->
  (forall s, y = S754_infinity s -> forall s', x <> S754_zero s') ->
  nonneg (fmul x y).
Proof.
  destruct x as [sx|sx| |sx mx ex], y as [sy|sy| |sy my ey]; simpl;
    intros Hx Hy H1 H2; subst; try done.
  - exfalso. eapply H2; eauto.
  - exfalso. eapply H1; eauto.
  - apply binary_round_aux_nonneg. lia.
Qed.

Lemma div_core_nonneg (m1 m2 : positive) (e1 e2 : Z) :
  (0 <= fst (fst (SFdiv_core_binary prec emax (Zpos m1) e1 (Zpos m2) e2)))%Z.
Proof.
  unfold SFdiv_core_binary.
  set (s := (e1 - e2 - _)%Z).
  set (m' := match s with Z0 => _ | Zpos _ => _ | Zneg _ => _ end).
  assert (0 <= m')%Z as Hm'.
  { subst m'. destruct s; try lia. apply Z.shiftl_nonneg. lia. }
  pose proof (Z_div_mod m' (Zpos m2) ltac:(lia)) as Hdiv.
  destruct (Z.div_eucl m' (Z.pos m2)) as [q r]. simpl.
  destruct Hdiv as [Heq Hr]. nia.
Qed.

Lemma fdiv_finite_nonneg (m1 m2 : positive) (e1 e2 : Z) :
  nonneg (fdiv (S754_finite false m1 e1) (S754_finite false m2 e2)).
Proof.
  unfold fdiv. simpl.
  pose proof (div_core_nonneg m1 m2 e1 e2) as H.
  destruct (SFdiv_core_binary prec emax (Z.pos m1) e1 (Z.pos m2) e2) as [[mz ez] lz].
  simpl in H. apply binary_round_aux_nonneg. exact H.
Qed.

Lemma int_truediv_nonneg (a b : Z) :
  (0 <= a)%Z -> (0 < b)%Z -> nonneg (int_truediv a b).
Proof.
  intros Ha Hb. unfold int_truediv.
  destruct a as [|p|p], b as [|q|q]; try lia; simpl; auto.
  apply fdiv_finite_nonneg.
Qed.

Lemma fdiv_f100_nonneg (x : float) : nonneg x -> nonneg (fdiv x f100).
Proof.
  destruct x as [sx|sx| |sx mx ex]; simpl; intros Hx; subst; try done.
  apply fdiv_finite_nonneg.
Qed.

Lemma py_min_f1_nonneg (x : float) : nonneg x -> nonneg (py_min x f1).
Proof.
  intros Hx. unfold py_min. destruct (flt f1 x); [done | exact Hx].
Qed.

Lemma nonneg_f0_le (x : float) : nonneg x -> fle f0 x = true.
Proof. destruct x as [sx|sx| |sx mx ex]; simpl; intros Hx; subst; done. Qed.

Lemma nonneg_not_nan (x : float) : nonneg x -> is_nan x = false.
Proof. destruct x; simpl; done. Qed.

End Rounding.

Section Comparisons.

Lemma flt_irrefl (x : float) : flt x x = false.
Proof.
  unfold flt, SFltb. destruct (is_nan x) eqn:E.
  - destruct x; done.
  - by rewrite compare_refl.
Qed.

Lemma flt_trans (x y z : float) :
  flt x y = true -> flt y z = true -> flt x z = true.
Proof.
  unfold flt, SFltb. intros Hxy Hyz.
  destruct (SFcompare x y) as [[]|] eqn:E1; try done.
  destruct (SFcompare y z) as [[]|] eqn:E2; try done.
  by rewrite (compare_lt_trans x y z).
Qed.

Lemma feq_flt (x y z : float) :
  feq x y = true -> flt y z = true -> flt x z = true.
Proof.
  unfold feq, SFeqb, flt, SFltb. intros Hxy Hyz.
  destruct (SFcompare x y) as [[]|] eqn:E1; try done.
  by rewrite (compare_eq_l x y z).
Qed.

Lemma flt_feq (x y z : float) :
  flt x y = true -> feq z y = true -> flt x z = true.
Proof.
  unfold feq, SFeqb, flt, SFltb. intros Hxy Hzy.
  destruct (SFcompare z y) as [[]|] eqn:E1; try done.
  destruct (SFcompare x y) as [[]|] eqn:E2; try done.
  apply compare_flip in E2. simpl in E2.
  rewrite <- (compare_eq_l z y x E1) in E2.
  apply compare_flip in E2. simpl in E2. by rewrite E2.
Qed.

Lemma feq_sym (x y : float) : feq x y = feq y x.
Proof.
  unfold feq, SFeqb.
  destruct (SFcompare x y) as [c|] eqn:E.
  - apply compare_flip in E. rewrite E. by destruct c.
  - destruct (SFcompare y x) as [c|] eqn:E'; [|done].
    apply compare_flip in E'. congruence.
Qed.

Lemma flt_not_feq (x y : float) : flt x y = true -> feq x y = false.
Proof.
  unfold feq, SFeqb, flt, SFltb. by destruct (SFcompare x y) as [[]|].
Qed.

Lemma fge_iff (x t : float) :
  fge x t = true <-> flt t x = true \/ feq x t = true.
Proof.
  unfold fge, feq, SFeqb, flt, SFltb, SFleb.
  destruct (SFcompare t x) as [c|] eqn:E.
  - apply compare_flip in E. rewrite E. destruct c; simpl; intuition done.
  - destruct (SFcompare x t) as [c|] eqn:E'.
    + apply compare_flip in E'. congruence.
    + intuition done.
Qed.

Lemma fle_total (x y : float) :
  is_nan x = false -> is_nan y = false -> flt x y = false -> fle y x = true.
Proof.
  intros Hx Hy. unfold flt, SFltb, fle, SFleb.
  destruct (compare_total x y Hx Hy) as [c E]. rewrite E.
  apply compare_flip in E. rewrite E. by destruct c.
Qed.

Lemma flt_fle (x y : float) : flt x y = true -> fle x y = true.
Proof. unfold flt, SFltb, fle, SFleb. by destruct (SFcompare x y) as [[]|]. Qed.

Lemma fle_trans (x y z : float) :
  fle x y = true -> fle y z = true -> fle x z = true.
Proof.
  unfold fle, SFleb. intros Hxy Hyz.
  destruct (SFcompare x y) as [[]|] eqn:E1; try done.
  - by rewrite (compare_eq_l x y z).
  - destruct (SFcompare y z) as [[]|] eqn:E2; try done.
    + apply compare_flip in E1, E2. simpl in *.
      rewrite <- (compare_eq_l _ _ x E2) in E1.
      apply compare_flip in E1. by rewrite E1.
    + by rewrite (compare_lt_trans x y z).
Qed.

Lemma py_min_f1_le (x : float) : is_nan x = false -> fle (py_min x f1) f1 = true.
Proof.
  intros Hx. unfold py_min. destruct (flt f1 x) eqn:E; [done|].
  by apply fle_total.
Qed.

End Comparisons.

(** ** The deduplicator *)

Section Deduplicator.

Lemma min_index_from_spec (rest pre : list float) (best : nat) (key : float) :
  is_first_min pre best key ->
  exists key',
    is_first_min (pre ++ rest) (min_index_from best key (length pre) rest) key'.
Proof.
  revert pre best key.
  induction rest as [|d rest IH]; intros pre best key (Hat & Hmin & Hfirst); simpl.
  - exists key. rewrite app_nil_r. by repeat split.
  - replace (pre ++ d :: rest) with ((pre ++ [d]) ++ rest) by by rewrite <- app_assoc.
    replace (S (length pre)) with (length (pre ++ [d])) by (rewrite length_app; simpl; lia).
    assert (best < length pre)%nat as Hlt by (by eapply lookup_lt_Some).
    destruct (flt d key) eqn:E; apply IH; repeat split.
    + by apply list_lookup_middle.
    + intros j dj Hj. destruct (decide (j < length pre)%nat) as [Hin|Hout].
      * rewrite lookup_app_l in Hj by done.
        destruct (flt dj d) eqn:E'; [|done].
        pose proof (Hmin j dj Hj) as Hc. by rewrite (flt_trans dj d key E' E) in Hc.
      * apply lookup_lt_Some in Hj as Hb. rewrite length_app in Hb. simpl in Hb.
        rewrite lookup_app_r in Hj by lia.
        replace (j - length pre)%nat with 0%nat in Hj by lia.
        simpl in Hj. injection Hj as <-. apply flt_irrefl.
    + intros j dj Hjb Hj. rewrite lookup_app_l in Hj by lia.
      destruct (feq dj d) eqn:E'; [|done].
      pose proof (Hmin j dj Hj) as Hc. by rewrite (feq_flt dj d key E' E) in Hc.
    + by rewrite lookup_app_l.
    + intros j dj Hj. destruct (decide (j < length pre)%nat) as [Hin|Hout].
      * rewrite lookup_app_l in Hj by done. eauto.
      * apply lookup_lt_Some in Hj as Hb. rewrite length_app in Hb. simpl in Hb.
        rewrite lookup_app_r in Hj by lia.
        replace (j - length pre)%nat with 0%nat in Hj by lia.
        simpl in Hj. by injection Hj as <-.
    + intros j dj Hjb Hj. rewrite lookup_app_l in Hj by lia. eauto.
Qed.

Lemma min_index_first_min (d0 : float) (rest : list float) :
  exists key, is_first_min (d0 :: rest) (min_index_from 0 d0 1 rest) key.
Proof.
  apply (min_index_from_spec rest [d0] 0 d0). repeat split.
  - intros [|j] d Hj; simpl in Hj; [|done].
    injection Hj as <-. apply flt_irrefl.
  - intros j d Hj. lia.
Qed.

End Deduplicator.

Section DeduplicatorClaims.

(** C3.  With no distances the deduplicator answers [(False, None)].
    Otherwise it answers the index of a first minimum of the distances (no
    distance is smaller, no earlier distance is equal; on numbers: it is
    below or equal to every distance), whatever the verdict, and the verdict
    is [1.0 - d >= threshold] for that distance [d], computed in floats.
    The boundary is inclusive on the computed similarity: when [1.0 - d]
    equals the threshold the answer is a duplicate, and the answer is a
    duplicate only when [1.0 - d] is above the threshold or equal to it.
    Nothing is said of a distance equal to [1.0 - threshold]: that one is a
    duplicate exactly when [1.0 - (1.0 - threshold) >= threshold] in
    floats, which holds for the default 0.92 and fails for 0.1. *)
Theorem deduplicate_content_nearest (candidate : text) (docs : list text)
    (ds : list float) (threshold : float) :
  match ds with
  | [] => deduplicate_content candidate docs ds threshold = (false, None)
  | _ :: _ =>
      exists best d,
        deduplicate_content candidate docs ds threshold
          = (fge (fsub f1 d) threshold, Some best)
        /\ ds !! best = Some d
        /\ (forall j dj, ds !! j = Some dj -> flt dj d = false)
        /\ (forall j dj, (j < best)%nat -> ds !! j = Some dj -> feq dj d = false)
        /\ (forall j dj, ds !! j = Some dj ->
              is_nan d = false -> is_nan dj = false -> fle d dj = true)
        /\ (feq (fsub f1 d) threshold = true ->
            deduplicate_content candidate docs ds threshold = (true, Some best))
        /\ (fst (deduplicate_content candidate docs ds threshold) = true ->
            flt threshold (fsub f1 d) = true \/ feq (fsub f1 d) threshold = true)
        /\ (d = fsub f1 threshold ->
            fst (deduplicate_content candidate docs ds threshold)
            = fge (fsub f1 (fsub f1 threshold)) threshold)
  end.
Proof.
  destruct ds as [|d0 rest]; [reflexivity|].
  destruct (min_index_first_min d0 rest) as (d & Hat & Hmin & Hfirst).
  assert (deduplicate_content candidate docs (d0 :: rest) threshold
          = (fge (fsub f1 d) threshold, Some (min_index_from 0 d0 1 rest)))
    as Heq.
  { unfold deduplicate_content.
    by rewrite (nth_lookup_Some _ _ S754_nan _ Hat). }
  exists (min_index_from 0 d0 1 rest), d.
  split; [done|]. split; [done|]. split; [done|]. split; [done|].
  split; [|split; [|split]].
  - intros j dj Hj Hd Hdj. apply fle_total; eauto.
  - intros Hb. rewrite Heq. f_equal. apply fge_iff. by right.
  - rewrite Heq. simpl. apply fge_iff.
  - intros ->. by rewrite Heq.
Qed.

(** The boundary of the claim, read on the distance: at the threshold 0.1
    the distance [1.0 - 0.1] is not a duplicate, since [1.0 - 0.9] is
    0.09999999999999998 in floats. *)
Example deduplicate_content_boundary_rounds :
  deduplicate_content (str "text") [str "x"] [fsub f1 f0_1] f0_1
  = (false, Some 0%nat)
  /\ flt (fsub f1 (fsub f1 f0_1)) f0_1 = true.
Proof. vm_compute. split; reflexivity. Qed.

(** The cases of the test suite: the closest of several candidates is
    chosen, and a distance of exactly [1 - threshold] is a duplicate. *)
Example deduplicate_content_picks_closest :
  deduplicate_content (str "text") [str "a"; str "b"; str "c"]
    [int_truediv 1 2; int_truediv 2 100; int_truediv 4 10] f0_92
  = (true, Some 1%nat).
Proof. vm_compute. reflexivity. Qed.

Example deduplicate_content_boundary :
  deduplicate_content (str "text") [str "x"] [fsub f1 f0_92] f0_92
  = (true, Some 0%nat).
Proof. vm_compute. reflexivity. Qed.

Example deduplicate_content_far :
  deduplicate_content (str "text") [str "different"] [f0_3] f0_92
  = (false, Some 0%nat).
Proof. vm_compute. reflexivity. Qed.

(** C9.  The answer depends on the distances and the threshold only: the
    candidate text and the documents play no part. *)
Theorem deduplicate_content_ignores_texts (candidate candidate' : text)
    (docs docs' : list text) (ds : list float) (threshold : float) :
  deduplicate_content candidate docs ds threshold
  = deduplicate_content candidate' docs' ds threshold.
Proof. reflexivity. Qed.

End DeduplicatorClaims.

(** ** The importance scorer *)

Section Scorer.

Lemma isspace_lower_char (c : ascii) : isspace (lower_char c) = isspace c.
Proof. destruct c as [[] [] [] [] [] [] [] []]; reflexivity. Qed.

Lemma split_whitespace (s : text) :
  forallb isspace s = true -> PyStr.split (lower s) = [].
Proof.
  unfold PyStr.split. induction s as [|c s IH]; simpl; [done|].
  rewrite isspace_lower_char. destruct (isspace c); simpl; [exact IH | done].
Qed.

Lemma score_nonneg (words : list text) (structure fact : bool) :
  truthy words = true ->
  nonneg
    (fadd (fadd (fadd
       (fmul (int_truediv (Z.of_nat (size (list_to_set words : gset text)))
                          (len words)) f0_5)
       (fmul (py_min (fdiv (float_of_int (len words)) f100) f1) f0_3))
       (if structure then f0_1 else f0))
       (if fact then f0_1 else f0)).
Proof.
  intros Hw.
  assert (0 < len words)%Z as Hlen.
  { destruct words; [done|]. unfold len. simpl. lia. }
  repeat apply fadd_nonneg.
  - apply fmul_nonneg; try done.
    apply int_truediv_nonneg; lia.
  - apply fmul_nonneg; try done.
    apply py_min_f1_nonneg, fdiv_f100_nonneg, float_of_int_nonneg. lia.
  - by destruct structure.
  - by destruct fact.
Qed.

(** C5.  The importance of every text lies in [0, 1], and a text made of
    whitespace only (the empty text included) scores exactly [0.0]. *)
Theorem compute_importance_bounds (t : text) :
  (fle f0 (compute_importance t) = true
   /\ fle (compute_importance t) f1 = true)
  /\ (forallb isspace t = true -> compute_importance t = f0).
Proof.
  split.
  - unfold compute_importance.
    destruct (truthy (PyStr.split (lower t))) eqn:Hw; simpl; [|done].
    pose proof (score_nonneg _ (Re.search Re.structure_marker t)
                  (Re.search Re.digits t) Hw) as Hs.
    split.
    + by apply nonneg_f0_le, py_min_f1_nonneg.
    + by apply py_min_f1_le, nonneg_not_nan.
  - intros Hws. unfold compute_importance.
    by rewrite split_whitespace.
Qed.

Remark compute_importance_bounds_witness :
  forallb isspace (str "  ") = true /\ compute_importance (str "  ") = f0.
Proof.
  split; [reflexivity|].
  apply (compute_importance_bounds (str "  ")). reflexivity.
Defined.

(** The scores the test suite looks at. *)
Example compute_importance_empty : compute_importance [] = f0.
Proof. reflexivity. Qed.

Example compute_importance_structure_bonus :
  flt (compute_importance (str "the the the the the the the the the the"))
      (compute_importance
         (str "1. First point" ++ [nl] ++ str "2. Second point" ++ [nl]
          ++ str "3. Third point" ++ [nl] ++ str "4. Fourth point")) = true.
Proof. vm_compute. reflexivity. Qed.

Example compute_importance_fact_bonus :
  flt (compute_importance (str "the cat sat on the mat"))
      (compute_importance (str "the cat sat on 3 mats")) = true.
Proof. vm_compute. reflexivity. Qed.

End Scorer.

(** ** The chunker *)

Section Chunker.

Lemma chunk_text_nonempty (t : text) (max_chunk_size : Z) :
  chunk_text t max_chunk_size <> [].
Proof.
  unfold chunk_text.
  destruct (truthy (map strip _)); simpl.
  - destruct (paragraph_loop _ _ _ _ _) as [chunks parts].
    destruct (truthy parts).
    + destruct chunks; simpl; done.
    + destruct chunks; simpl; done.
  - destruct (truthy (strip t)); done.
Qed.

Lemma split_from_length (r : Re.regex) (s : text) :
  forall prev skip cur,
    (length (concat (Re.split_from r prev skip cur s)) <= length cur + length s)%nat.
Proof.
  induction s as [|c s IH]; intros prev skip cur; simpl.
  - rewrite app_nil_r. lia.
  - destruct skip as [|k].
    + destruct (Re.match_at r prev (c :: s)) as [[|k]|].
      * specialize (IH (Some c) 0%nat (cur ++ [c])).
        rewrite length_app in IH. simpl in IH. lia.
      * simpl. rewrite length_app. specialize (IH (Some c) k []). simpl in IH. lia.
      * specialize (IH (Some c) 0%nat (cur ++ [c])).
        rewrite length_app in IH. simpl in IH. lia.
    + specialize (IH (Some c) k cur). lia.
Qed.

Lemma lstrip_length (s : text) : (length (lstrip s) <= length s)%nat.
Proof.
  induction s as [|c s IH]; simpl; [lia|].
  destruct (isspace c); simpl; lia.
Qed.

Lemma strip_length (s : text) : (length (strip s) <= length s)%nat.
Proof.
  unfold strip, rstrip. rewrite length_rev.
  etrans; [apply lstrip_length|]. rewrite length_rev. apply lstrip_length.
Qed.

Lemma stripped_pieces_length (pieces : list text) :
  (length (concat (map strip (List.filter (fun p => truthy (strip p)) pieces)))
   <= length (concat pieces))%nat.
Proof.
  induction pieces as [|p pieces IH]; simpl; [lia|].
  rewrite length_app.
  destruct (truthy (strip p)); simpl; [|lia].
  rewrite length_app. pose proof (strip_length p). lia.
Qed.

(** Paragraphs that fit together under the limit are accumulated and never
    flushed. *)
Lemma paragraph_loop_fits (max_chunk_size : Z) (paragraphs : list text) :
  forall chunks current_parts current_size,
    (0 <= current_size)%Z ->
    (current_size + len (concat paragraphs) <= max_chunk_size)%Z ->
    paragraph_loop max_chunk_size paragraphs chunks current_parts current_size
    = (chunks, current_parts ++ paragraphs).
Proof.
  induction paragraphs as [|para rest IH]; intros chunks parts size Hsize Hfit; simpl.
  - by rewrite app_nil_r.
  - unfold len in *. simpl in Hfit. rewrite length_app in Hfit.
    destruct (Z.gtb_spec (Z.of_nat (length para)) max_chunk_size) as [Hbig|_]; [lia|].
    destruct (Z.gtb_spec (size + Z.of_nat (length para)) max_chunk_size) as [Hbig|_]; [lia|].
    simpl. rewrite IH by lia. by rewrite <- app_assoc.
Qed.

Lemma split_without_match (r : Re.regex) (s : text) :
  forall prev cur,
    Re.search_from r prev s = false ->
    Re.split_from r prev 0 cur s = [cur ++ s].
Proof.
  induction s as [|c s IH]; intros prev cur; simpl.
  - by rewrite app_nil_r.
  - destruct (Re.match_at r prev (c :: s)); [done|].
    intros Hs. rewrite IH by done. by rewrite <- app_assoc.
Qed.

(** C8, as the code has it.  A text no longer than the limit comes back as
    exactly one chunk: its paragraphs (the pieces between blank lines,
    stripped, the empty ones dropped) joined by a blank line, or the
    stripped text when there is no paragraph.  That chunk is the text itself
    when the text has no leading or trailing whitespace and no blank line. *)
Theorem chunk_text_short (t : text) (max_chunk_size : Z) :
  (len t <= max_chunk_size)%Z ->
  let paragraphs :=
    map strip (List.filter (fun p => truthy (strip p)) (Re.split Re.blank_line t)) in
  chunk_text t max_chunk_size
  = [if truthy paragraphs then join paragraph_sep paragraphs else strip t]
  /\ (strip t = t -> Re.search Re.blank_line t = false ->
      chunk_text t max_chunk_size = [t]).
Proof.
  intros Hlen paragraphs.
  assert (chunk_text t max_chunk_size
          = [if truthy paragraphs then join paragraph_sep paragraphs else strip t])
    as Hone.
  { unfold chunk_text. fold paragraphs.
    destruct (truthy paragraphs) eqn:Hp; simpl.
    - rewrite paragraph_loop_fits; [| lia |].
      + simpl. rewrite Hp. done.
      + pose proof (stripped_pieces_length (Re.split Re.blank_line t)) as H1.
        pose proof (split_from_length Re.blank_line t None 0%nat []) as H2.
        fold paragraphs in H1. unfold Re.split in H1. unfold len in *.
        simpl in H2. lia.
    - by destruct (truthy (strip t)) eqn:Hs; [|destruct (strip t)]. }
  split; [exact Hone|].
  intros Hstrip Hsearch. rewrite Hone.
  subst paragraphs. unfold Re.split.
  rewrite (split_without_match Re.blank_line t None [] Hsearch). simpl.
  rewrite Hstrip. destruct t as [|c t]; simpl; [done|]. by rewrite Hstrip.
Qed.

Remark chunk_text_short_witness :
  (len (str "Hello world.") <= 500)%Z
  /\ chunk_text (str "Hello world.") 500 = [str "Hello world."].
Proof.
  split; [done|].
  apply (chunk_text_short (str "Hello world.") 500); [done|reflexivity|reflexivity].
Defined.

(** C8 as stated fails: leading whitespace is stripped, and a run of
    blank lines is rewritten as one. *)
Lemma chunk_text_short_not_identity :
  (len (str " a") <= 500)%Z /\ chunk_text (str " a") 500 <> [str " a"].
Proof. split; [done|]. vm_compute. discriminate. Qed.

Example chunk_text_short_blank_lines :
  chunk_text ("a"%char :: nl :: nl :: nl :: [ "b"%char ]) 500
  = ["a"%char :: nl :: nl :: [ "b"%char ]].
Proof. vm_compute. reflexivity. Qed.

(** C2 fails on the code: the size that is accumulated counts the
    paragraphs (or sentences) but not the separators [join] puts between
    them.  Two paragraphs of 250 characters pass the test [<= 500] and come
    back as one chunk of 502 characters, although no paragraph and no
    sentence is over the limit. *)
Lemma chunk_text_exceeds_limit :
  let para := repeat "x"%char 250 in
  let t := para ++ paragraph_sep ++ para in
  chunk_text t DEFAULT_CHUNK_SIZE = [t]
  /\ chunks_of t true = [t]
  /\ len t = 502%Z
  /\ map strip (List.filter (fun p => truthy (strip p))
                  (Re.split Re.blank_line t)) = [para; para]
  /\ _split_sentences para = [para]
  /\ len para = 250%Z.
Proof. vm_compute. repeat split; reflexivity. Qed.

Example chunk_text_exceeds_limit_small :
  chunk_text (str "aaa" ++ paragraph_sep ++ str "bbb") 6
  = [str "aaa" ++ paragraph_sep ++ str "bbb"]
  /\ len (str "aaa" ++ paragraph_sep ++ str "bbb") = 8%Z.
Proof. vm_compute. split; reflexivity. Qed.

Example chunk_text_exceeds_limit_sentences :
  chunk_text (str "Aa. Bb.") 6 = [str "Aa. Bb."]
  /\ _split_sentences (str "Aa. Bb.") = [str "Aa."; str "Bb."]
  /\ len (str "Aa. Bb.") = 7%Z.
Proof. vm_compute. repeat split; reflexivity. Qed.

End Chunker.

(** ** The coordinator: store *)

Section Store.
Context {env : Env}.

Lemma min_index_from_lt (rest : list float) :
  forall best key i,
    (best < i)%nat -> (min_index_from best key i rest < i + length rest)%nat.
Proof.
  induction rest as [|d rest IH]; intros best key i Hlt; simpl; [lia|].
  destruct (flt d key).
  - specialize (IH i d (S i)). lia.
  - specialize (IH best key (S i)). lia.
Qed.

Lemma deduplicate_content_in_range (candidate : text) (docs : list text)
    (ds : list float) (threshold : float) (verdict : bool) (i : nat) :
  deduplicate_content candidate docs ds threshold = (verdict, Some i) ->
  (i < length ds)%nat.
Proof.
  destruct ds as [|d0 rest]; simpl; [done|].
  intros [= _ <-]. pose proof (min_index_from_lt rest 0 d0 1). lia.
Qed.

(** The two ways out of [_store_with_dedup]: a merge into the row of the
    query result the deduplicator points at, or an addition under a new
    identifier. *)
Lemma store_with_dedup_cases (self : MemoryManager) (content : text)
    (meta : metadata) :
  let results := VectorStore_query self content 1 in
  let verdict :=
    deduplicate_content content (map hit_document results)
      (map hit_distance results) (similarity_threshold self) in
  (VectorStore_count self <> 0%nat
   /\ exists best h,
       verdict = (true, Some best)
       /\ results !! best = Some h
       /\ _store_with_dedup self content meta
          = Some (VectorStore_update self (hit_id h)
                    (merged_text content (hit_document h)) meta,
                  hit_id h))
  \/ ((VectorStore_count self = 0%nat \/ fst verdict = false)
      /\ _store_with_dedup self content meta
         = Some (VectorStore_add (snd (generate_id self))
                   (fst (generate_id self)) content meta,
                 fst (generate_id self))).
Proof.
  intros results verdict. unfold _store_with_dedup.
  destruct (Nat.eqb_spec (VectorStore_count self) 0) as [Hz|Hnz].
  { right. split; [by left|done]. }
  fold results. fold verdict.
  destruct verdict as [[|] [best|]] eqn:Hv.
  - left. split; [done|].
    apply deduplicate_content_in_range in Hv as Hlt.
    rewrite length_map in Hlt.
    destruct (lookup_lt_is_Some_2 results best Hlt) as [h Hh].
    exists best, h. by rewrite Hh.
  - right. split; [|done]. right.
    unfold deduplicate_content in Hv. by destruct (map hit_distance results).
  - right. split; [by right|done].
  - right. split; [by right|done].
Qed.

Lemma store_with_dedup_total (self : MemoryManager) (content : text)
    (meta : metadata) :
  exists self' mem_id, _store_with_dedup self content meta = Some (self', mem_id).
Proof.
  destruct (store_with_dedup_cases self content meta)
    as [(_ & best & h & _ & _ & ->)|(_ & ->)]; eauto.
Qed.

Lemma store_chunks_in_order (base_meta : metadata) (chunks : list text) :
  forall self stored_ids,
  exists self' ids,
    store_chunks self base_meta chunks stored_ids = Some (self', stored_ids ++ ids)
    /\ stored_in_order base_meta self chunks ids self'.
Proof.
  induction chunks as [|chunk rest IH]; intros self stored_ids; simpl.
  - exists self, []. rewrite app_nil_r. split; [done|constructor].
  - destruct (store_with_dedup_total self chunk
                (<["importance" := VFloat (compute_importance chunk)]> base_meta))
      as (self1 & mem_id & Hone).
    unfold store_chunk at 1. rewrite Hone.
    destruct (IH self1 (stored_ids ++ [mem_id])) as (self' & ids & Hrest & Hord).
    exists self', (mem_id :: ids). split.
    + rewrite Hrest. by rewrite <- app_assoc.
    + econstructor; eauto.
Qed.

Lemma stored_in_order_length (base_meta : metadata) (self self' : MemoryManager)
    (chunks : list text) (ids : list string) :
  stored_in_order base_meta self chunks ids self' -> length ids = length chunks.
Proof. induction 1; simpl; congruence. Qed.

Lemma chunks_of_nonempty (content : text) (auto_chunk : bool) :
  chunks_of content auto_chunk <> [].
Proof.
  unfold chunks_of. destruct (auto_chunk && _); [|done].
  apply chunk_text_nonempty.
Qed.

(** C10.  On every input [store] returns: it yields one identifier per
    chunk, in the order of the chunks, and never an empty list. *)
Theorem store_one_id_per_chunk (self : MemoryManager) (content : text)
    (meta : option metadata) (session_id : option string) (auto_chunk : bool)
    (now : float) :
  exists self' ids,
    store self content meta session_id auto_chunk now = Some (self', ids)
    /\ stored_in_order (base_metadata content meta session_id now)
         self (chunks_of content auto_chunk) ids self'
    /\ length ids = length (chunks_of content auto_chunk)
    /\ ids <> [].
Proof.
  destruct (store_chunks_in_order (base_metadata content meta session_id now)
              (chunks_of content auto_chunk) self [])
    as (self' & ids & Hrun & Hord).
  exists self', ids. split; [exact Hrun|]. split; [exact Hord|].
  pose proof (stored_in_order_length _ _ _ _ _ Hord) as Hlen.
  split; [exact Hlen|].
  pose proof (chunks_of_nonempty content auto_chunk) as Hne.
  destruct ids; [|done]. destruct (chunks_of content auto_chunk); done.
Qed.

End Store.

Section Merge.
Context {env : Env}.

Lemma metadatas_arg_insert (k : string) (v : value) (m : metadata) :
  metadatas_arg (<[k := v]> m) = Some (<[k := v]> m).
Proof.
  unfold metadatas_arg. destruct (decide (<[k := v]> m = ∅)) as [He|]; [|done].
  by apply insert_non_empty in He.
Qed.

Lemma merged_text_longer (content existing_doc : text) :
  (merged_text content existing_doc = content
   \/ merged_text content existing_doc = existing_doc)
  /\ (len content <= len (merged_text content existing_doc))%Z
  /\ (len existing_doc <= len (merged_text content existing_doc))%Z
  /\ ((len existing_doc <= len content)%Z ->
      merged_text content existing_doc = content).
Proof.
  unfold merged_text.
  destruct (Z.geb_spec (len content) (len existing_doc)); repeat split; auto; lia.
Qed.

(** C6.  When the chunk is classified as a duplicate of the row [best] of
    the query result, the only request sent is an update of that row's
    identifier with the longer of the two texts (the chunk when they are
    equally long); that identifier is returned and no identifier is drawn. *)
Theorem merge_keeps_longer_text (self : MemoryManager) (content : text)
    (meta : metadata) (best : nat) :
  let results := VectorStore_query self content 1 in
  VectorStore_count self <> 0%nat ->
  deduplicate_content content (map hit_document results)
    (map hit_distance results) (similarity_threshold self) = (true, Some best) ->
  exists h self',
    results !! best = Some h
    /\ _store_with_dedup self content meta = Some (self', hit_id h)
    /\ sent self'
       = sent self ++ [Update (hit_id h) (merged_text content (hit_document h))
                          (metadatas_arg meta)]
    /\ drawn self' = drawn self
    /\ (len content <= len (merged_text content (hit_document h)))%Z
    /\ (len (hit_document h) <= len (merged_text content (hit_document h)))%Z
    /\ (merged_text content (hit_document h) = content
        \/ merged_text content (hit_document h) = hit_document h)
    /\ ((len (hit_document h) <= len content)%Z ->
        merged_text content (hit_document h) = content).
Proof.
  intros results Hcount Hdup.
  destruct (store_with_dedup_cases self content meta)
    as [(_ & best' & h & Hv & Hh & Hrun)|([Hz|Hno] & _)].
  - fold results in Hv, Hh. rewrite Hdup in Hv. injection Hv as <-.
    destruct (merged_text_longer content (hit_document h)) as (H1 & H2 & H3 & H4).
    exists h, (VectorStore_update self (hit_id h)
                 (merged_text content (hit_document h)) meta).
    repeat split; auto.
  - done.
  - fold results in Hno. by rewrite Hdup in Hno.
Qed.

End Merge.

Remark merge_keeps_longer_text_witness :
  exists h self',
    VectorStore_query (env := shelf) fresh (str "alpha") 1 !! 0%nat = Some h
    /\ _store_with_dedup (env := shelf) fresh (str "alpha") ∅ = Some (self', hit_id h)
    /\ sent self'
       = sent fresh ++ [Update (hit_id h) (merged_text (str "alpha") (hit_document h))
                          (metadatas_arg ∅)]
    /\ drawn self' = drawn fresh
    /\ (len (str "alpha") <= len (merged_text (str "alpha") (hit_document h)))%Z
    /\ (len (hit_document h) <= len (merged_text (str "alpha") (hit_document h)))%Z
    /\ (merged_text (str "alpha") (hit_document h) = str "alpha"
        \/ merged_text (str "alpha") (hit_document h) = hit_document h)
    /\ ((len (hit_document h) <= len (str "alpha"))%Z ->
        merged_text (str "alpha") (hit_document h) = str "alpha").
Proof.
  apply (merge_keeps_longer_text (env := shelf) fresh (str "alpha") ∅ 0%nat).
  - done.
  - vm_compute. reflexivity.
Defined.

Section Metadata.
Context {env : Env}.

(** C1, as the code has it.  On a merge the importance written with the
    entry is the score of the incoming chunk.  It is the score of the text
    that is stored whenever the chunk is at least as long as the existing
    document, for it is then the chunk that is stored. *)
Theorem merge_importance_of_chunk (self : MemoryManager) (base_meta : metadata)
    (chunk : text) (best : nat) :
  let results := VectorStore_query self chunk 1 in
  VectorStore_count self <> 0%nat ->
  deduplicate_content chunk (map hit_document results)
    (map hit_distance results) (similarity_threshold self) = (true, Some best) ->
  exists h self' written,
    results !! best = Some h
    /\ store_chunk self base_meta chunk = Some (self', hit_id h)
    /\ sent self'
       = sent self ++ [Update (hit_id h) (merged_text chunk (hit_document h))
                          (Some written)]
    /\ written !! "importance" = Some (VFloat (compute_importance chunk))
    /\ ((len (hit_document h) <= len chunk)%Z ->
        written !! "importance"
        = Some (VFloat (compute_importance (merged_text chunk (hit_document h))))).
Proof.
  intros results Hcount Hdup.
  set (chunk_meta := <["importance" := VFloat (compute_importance chunk)]> base_meta).
  destruct (store_with_dedup_cases self chunk chunk_meta)
    as [(_ & best' & h & Hv & Hh & Hrun)|([Hz|Hno] & _)].
  - fold results in Hv, Hh. rewrite Hdup in Hv. injection Hv as <-.
    destruct (merged_text_longer chunk (hit_document h)) as (_ & _ & _ & Hlong).
    exists h, (VectorStore_update self (hit_id h)
                 (merged_text chunk (hit_document h)) chunk_meta), chunk_meta.
    split; [exact Hh|]. split; [exact Hrun|]. split; [|split].
    + simpl. unfold chunk_meta. by rewrite metadatas_arg_insert.
    + apply lookup_insert_eq.
    + intros Hlen. rewrite (Hlong Hlen). apply lookup_insert_eq.
  - done.
  - fold results in Hno. by rewrite Hdup in Hno.
Qed.

Lemma base_metadata_caller (content : text) (m : metadata)
    (session_id : option string) (now : float) (k : string) (v : value) :
  m !! k = Some v ->
  base_metadata content (Some m) session_id now !! k = Some v.
Proof.
  intros Hk. unfold base_metadata.
  destruct (decide (m = ∅)) as [->|_]; [by rewrite lookup_empty in Hk|].
  by apply lookup_union_Some_l.
Qed.

Lemma store_chunk_writes (self : MemoryManager) (base_meta : metadata)
    (chunk : text) (self' : MemoryManager) (mem_id : string) :
  store_chunk self base_meta chunk = Some (self', mem_id) ->
  exists doc,
    let written := <["importance" := VFloat (compute_importance chunk)]> base_meta in
    sent self' = sent self ++ [Add mem_id doc (Some written)]
    \/ sent self' = sent self ++ [Update mem_id doc (Some written)].
Proof.
  unfold store_chunk.
  set (chunk_meta := <["importance" := VFloat (compute_importance chunk)]> base_meta).
  destruct (store_with_dedup_cases self chunk chunk_meta)
    as [(_ & best & h & _ & _ & ->)|(_ & ->)]; intros [= <- <-]; simpl;
    unfold chunk_meta; rewrite metadatas_arg_insert; eauto.
Qed.

Lemma stored_in_order_writes (m base_meta : metadata) (self self' : MemoryManager)
    (chunks : list text) (ids : list string) :
  (forall k v, m !! k = Some v -> base_meta !! k = Some v) ->
  stored_in_order base_meta self chunks ids self' ->
  exists calls,
    sent self' = sent self ++ calls /\ Forall2 (writes_for m) calls chunks.
Proof.
  intros Hbase. induction 1 as [self|self self1 self' chunk rest mem_id ids Hone _ IH].
  - exists []. by rewrite app_nil_r.
  - destruct IH as (calls & Hsent & Hall).
    destruct (store_chunk_writes _ _ _ _ _ Hone) as (doc & Hw).
    set (written := <["importance" := VFloat (compute_importance chunk)]> base_meta) in Hw.
    assert (forall c, c = Add mem_id doc (Some written)
                      \/ c = Update mem_id doc (Some written) ->
                      writes_for m c chunk) as Hfirst.
    { intros c Hc. exists mem_id, doc, written. split; [exact Hc|]. split.
      - intros k v Hk Hne. unfold written. rewrite lookup_insert_ne by done. auto.
      - apply lookup_insert_eq. }
    destruct Hw as [Hw|Hw];
      eexists (_ :: calls); (split; [rewrite Hsent, Hw, <- app_assoc; reflexivity|]);
      constructor; auto.
Qed.

(** C7, as the code has it.  [store] writes once per chunk, and each written
    metadata maps every key of the caller except [importance] to the
    caller's value; under [importance] it holds the score of the chunk,
    whatever the caller supplied. *)
Theorem store_metadata_overlay (self : MemoryManager) (content : text)
    (m : metadata) (session_id : option string) (auto_chunk : bool)
    (now : float) :
  exists self' ids calls,
    store self content (Some m) session_id auto_chunk now = Some (self', ids)
    /\ sent self' = sent self ++ calls
    /\ Forall2 (writes_for m) calls (chunks_of content auto_chunk).
Proof.
  destruct (store_chunks_in_order (base_metadata content (Some m) session_id now)
              (chunks_of content auto_chunk) self [])
    as (self' & ids & Hrun & Hord).
  destruct (stored_in_order_writes m _ _ _ _ _
              (base_metadata_caller content m session_id now) Hord)
    as (calls & Hsent & Hall).
  by exists self', ids, calls.
Qed.

End Metadata.

Remark merge_importance_of_chunk_witness :
  exists h self' written,
    VectorStore_query (env := shelf) fresh (str "alpha beta 7, 8") 1 !! 0%nat = Some h
    /\ store_chunk (env := shelf) fresh ∅ (str "alpha beta 7, 8") = Some (self', hit_id h)
    /\ sent self'
       = sent fresh ++ [Update (hit_id h)
                          (merged_text (str "alpha beta 7, 8") (hit_document h))
                          (Some written)]
    /\ written !! "importance"
       = Some (VFloat (compute_importance (str "alpha beta 7, 8")))
    /\ ((len (hit_document h) <= len (str "alpha beta 7, 8"))%Z ->
        written !! "importance"
        = Some (VFloat (compute_importance
                          (merged_text (str "alpha beta 7, 8") (hit_document h))))).
Proof.
  apply (merge_importance_of_chunk (env := shelf) fresh ∅ (str "alpha beta 7, 8") 0%nat).
  - done.
  - vm_compute. reflexivity.
Defined.

(** C1 as stated fails: a short near-duplicate of a longer stored document
    leaves the longer document in place and writes the score of the short
    chunk with it. *)
Lemma merge_importance_not_of_stored_text :
  exists self' written,
    store (env := shelf) fresh (str "alpha") None None true f0
    = Some (self', ["m"%string])
    /\ sent self' = [Update "m" (str "alpha beta 7") (Some written)]
    /\ written !! "importance" = Some (VFloat (compute_importance (str "alpha")))
    /\ written !! "importance"
       <> Some (VFloat (compute_importance (str "alpha beta 7"))).
Proof.
  eexists _, _. split; [vm_compute; reflexivity|].
  split; [reflexivity|]. split; vm_compute; [reflexivity|discriminate].
Qed.

(** C7 as stated fails on the key [importance]: the value of the caller is
    replaced by the score of the chunk. *)
Lemma store_overrides_caller_importance :
  exists self' written,
    store (env := empty_index) fresh (str "alpha")
      (Some {["importance" := VFloat f1]}) None true f0
    = Some (self', ["m"%string])
    /\ sent self' = [Add "m" (str "alpha") (Some written)]
    /\ ({["importance" := VFloat f1]} : metadata) !! "importance" = Some (VFloat f1)
    /\ written !! "importance" <> Some (VFloat f1).
Proof.
  eexists _, _. split; [vm_compute; reflexivity|].
  split; [reflexivity|]. split; vm_compute; [reflexivity|discriminate].
Qed.

(** A caller's [timestamp] and [session_id] do replace the defaults. *)
Example store_keeps_caller_timestamp :
  exists self' written,
    store (env := empty_index) fresh (str "alpha")
      (Some {["timestamp" := VStr "noon"]}) (Some "s1"%string) true f0
    = Some (self', ["m"%string])
    /\ sent self' = [Add "m" (str "alpha") (Some written)]
    /\ written !! "timestamp" = Some (VStr "noon")
    /\ written !! "session_id" = Some (VStr "s1").
Proof.
  eexists _, _. split; [vm_compute; reflexivity|].
  split; [reflexivity|]. split; vm_compute; reflexivity.
Qed.

(** ** The coordinator: retrieve *)

Section Ranking.
Context {A : Type} (key : A -> float).

Lemma insert_desc_keyed {B : Type} (g : A -> B) (x : A) (l : list A) :
  insert_desc (key x, g x) (map (fun m => (key m, g m)) l)
  = map (fun m => (key m, g m)) (insert_by key x l).
Proof.
  induction l as [|y l IH]; simpl; [done|].
  destruct (flt (key x) (key y)); simpl; [by rewrite IH|done].
Qed.

Lemma sort_desc_keyed {B : Type} (g : A -> B) (l : list A) :
  sort_desc (map (fun m => (key m, g m)) l)
  = map (fun m => (key m, g m)) (sort_by key l).
Proof.
  induction l as [|x l IH]; simpl; [done|].
  by rewrite IH, insert_desc_keyed.
Qed.

Lemma insert_by_perm (x : A) (l : list A) : insert_by key x l ≡ₚ x :: l.
Proof.
  induction l as [|y l IH]; simpl; [done|].
  destruct (flt (key x) (key y)); [|done].
  rewrite IH. apply Permutation_swap.
Qed.

Lemma sort_by_perm (l : list A) : sort_by key l ≡ₚ l.
Proof.
  induction l as [|x l IH]; simpl; [done|].
  by rewrite insert_by_perm, IH.
Qed.

Lemma insert_by_sorted (x : A) (l : list A) :
  is_nan (key x) = false ->
  Forall (fun m => is_nan (key m) = false) l ->
  StronglySorted (descending key) l ->
  StronglySorted (descending key) (insert_by key x l).
Proof.
  intros Hx Hl Hs. induction Hs as [|y l Hs IH Hy]; simpl.
  - repeat constructor.
  - apply Forall_cons in Hl as [Hny Hl].
    destruct (flt (key x) (key y)) eqn:E.
    + constructor; [by apply IH|].
      rewrite insert_by_perm. constructor; [|done].
      by apply flt_fle.
    + assert (descending key x y) as Hxy by (by apply fle_total).
      constructor; [by constructor|]. constructor; [done|].
      eapply Forall_impl; [exact Hy|]. intros z Hz.
      unfold descending in *. by eapply fle_trans.
Qed.

Lemma sort_by_sorted (l : list A) :
  Forall (fun m => is_nan (key m) = false) l ->
  StronglySorted (descending key) (sort_by key l).
Proof.
  induction l as [|x l IH]; simpl; [constructor|].
  intros [Hx Hl]%Forall_cons. apply insert_by_sorted; [done| |by apply IH].
  by rewrite sort_by_perm.
Qed.

Lemma insert_by_stable (k : float) (x : A) (l : list A) :
  List.filter (fun m => feq (key m) k) (insert_by key x l)
  = List.filter (fun m => feq (key m) k) (x :: l).
Proof.
  induction l as [|y l IH]; simpl; [done|].
  destruct (flt (key x) (key y)) eqn:E; [|done].
  simpl. rewrite IH. simpl.
  destruct (feq (key y) k) eqn:Ey, (feq (key x) k) eqn:Ex; try done.
  rewrite feq_sym in Ex.
  pose proof (flt_not_feq _ _ (feq_flt _ _ _ Ex E)) as Hky.
  rewrite feq_sym in Hky. congruence.
Qed.

Lemma sort_by_stable (k : float) (l : list A) :
  List.filter (fun m => feq (key m) k) (sort_by key l)
  = List.filter (fun m => feq (key m) k) l.
Proof.
  induction l as [|x l IH]; simpl; [done|].
  rewrite insert_by_stable. simpl. by rewrite IH.
Qed.

End Ranking.

Section Retrieve.
Context {env : Env}.

Lemma row_readable_importance (h : hit) :
  row_readable h = true ->
  exists meta,
    hit_metadata h = Some meta /\ importance_of meta = Some (row_importance h).
Proof.
  unfold row_readable, row_importance, importance_of.
  destruct (hit_metadata h) as [meta|]; [|done]. intros Hr. exists meta.
  split; [done|].
  destruct (meta !! "importance") as [[s|n|x|b]|]; simpl in *; try done.
  - by destruct (float_of_str s).
  - by destruct (float_of_int n).
Qed.

Lemma row_unreadable (h : hit) :
  row_readable h = false ->
  forall meta, hit_metadata h = Some meta -> importance_of meta = None.
Proof.
  unfold row_readable, importance_of. intros Hr meta Hm. rewrite Hm in Hr.
  destruct (meta !! "importance") as [[s|n|x|b]|]; simpl in *; try done.
  - by destruct (float_of_str s).
  - by destruct (float_of_int n).
Qed.

Lemma candidate_built_from (h : hit) :
  row_readable h = true -> built_from (candidate_of h) h.
Proof.
  intros (meta & Hm & _)%row_readable_importance.
  unfold built_from, candidate_of. simpl. by rewrite Hm.
Qed.

Lemma Forall2_map_diag {A B : Type} (P : B -> A -> Prop) (g : A -> B)
    (l : list A) :
  Forall (fun h => P (g h) h) l -> Forall2 P (map g l) l.
Proof. induction 1; simpl; by constructor. Qed.

Lemma surviving_readable (min_importance : float) (results : list hit) :
  Forall (fun h => row_readable h = true) results ->
  Forall (fun h => row_readable h = true) (surviving min_importance results).
Proof.
  rewrite !List.Forall_forall. intros Hall h [Hh _]%filter_In. by apply Hall.
Qed.

Lemma collect_surviving (min_importance : float) (results : list hit) :
  Forall (fun h => row_readable h = true) results ->
  forall memories,
    collect min_importance results memories
    = Some (memories ++ map candidate_of (surviving min_importance results)).
Proof.
  induction 1 as [|h results Hh _ IH]; intros memories; simpl.
  - by rewrite app_nil_r.
  - destruct (row_readable_importance h Hh) as (meta & Hm & Himp).
    rewrite Hm, Himp.
    destruct (flt (row_importance h) min_importance); simpl.
    + apply IH.
    + rewrite IH, <- app_assoc. unfold candidate_of at 2. by rewrite Hm.
Qed.

Lemma decorate_scores (rows : list hit) :
  Forall (fun h => row_readable h = true) rows ->
  decorate (map candidate_of rows)
  = Some (map (fun h => (score h, candidate_of h)) rows).
Proof.
  induction 1 as [|h rows Hh _ IH]; simpl; [done|].
  destruct (row_readable_importance h Hh) as (meta & Hm & Himp).
  unfold blended. simpl. rewrite Hm. simpl. rewrite Himp, IH. done.
Qed.

Lemma list_sort_reverse_numbers {A : Type} (key : A -> float) (g : A -> memory)
    (l : list A) :
  Forall (fun h => is_nan (key h) = false) l ->
  list_sort_reverse (map (fun h => (key h, g h)) l)
  = map (fun h => (key h, g h)) (sort_by key l).
Proof.
  intros Hnum. unfold list_sort_reverse.
  replace (forallb _ _) with true; [apply sort_desc_keyed|].
  symmetry. apply forallb_forall. intros x (h & <- & Hh)%in_map_iff. simpl.
  rewrite List.Forall_forall in Hnum. by rewrite (Hnum h Hh).
Qed.

Lemma insert_desc_perm {A : Type} (x : float * A) (l : list (float * A)) :
  insert_desc x l ≡ₚ x :: l.
Proof.
  induction l as [|y l IH]; simpl; [done|].
  destruct (flt (fst x) (fst y)); [|done].
  rewrite IH. apply Permutation_swap.
Qed.

Lemma sort_desc_perm {A : Type} (l : list (float * A)) : sort_desc l ≡ₚ l.
Proof.
  induction l as [|x l IH]; simpl; [done|].
  by rewrite insert_desc_perm, IH.
Qed.

Lemma list_sort_reverse_perm {A : Type} (l : list (float * A)) :
  list_sort_reverse l ≡ₚ l.
Proof.
  unfold list_sort_reverse. destruct (forallb _ _).
  - apply sort_desc_perm.
  - apply sort_unordered_perm.
Qed.

Lemma query_nothing (self : MemoryManager) (query : text) (n : nat) :
  VectorStore_count self = 0%nat -> VectorStore_query self query n = [].
Proof.
  intros Hz. unfold VectorStore_query. rewrite Hz.
  by rewrite Nat.min_0_r.
Qed.

Lemma slice_to_nonneg {A : Type} (l : list A) (stop : Z) :
  (0 <= stop)%Z -> slice_to l stop = firstn (Z.to_nat stop) l.
Proof.
  intros H. unfold slice_to. by rewrite (proj2 (Z.leb_le 0 stop) H).
Qed.

(** What [retrieve] returns on readable rows. *)
Lemma retrieve_readable (self : MemoryManager) (query : text) (n_results : Z)
    (min_importance : float) :
  (0 <= n_results)%Z ->
  Forall (fun h => row_readable h = true) (fetched self query n_results) ->
  retrieve self query n_results min_importance
  = Some (firstn (Z.to_nat n_results)
            (map snd
               (list_sort_reverse
                  (map (fun h => (score h, candidate_of h))
                     (surviving min_importance
                        (fetched self query n_results)))))).
Proof.
  intros Hn Hread. unfold retrieve.
  destruct (Nat.eqb_spec (VectorStore_count self) 0) as [Hz|Hnz].
  - unfold fetched. rewrite (query_nothing self query _ Hz). simpl.
    unfold list_sort_reverse. simpl. by rewrite firstn_nil.
  - replace (_ <? 0)%Z with false by (symmetry; apply Z.ltb_ge; lia).
    fold (fetched self query n_results).
    rewrite (collect_surviving _ _ Hread []). simpl.
    rewrite (decorate_scores _ (surviving_readable min_importance _ Hread)).
    by rewrite slice_to_nonneg.
Qed.

(** C4.  Let [n_results] be no negative number, let every row of the query
    result carry metadata whose importance, if any, is readable as a float,
    and let the blended scores of the surviving rows be numbers.  Then
    [retrieve] returns the candidates of the first [n_results] rows of a
    ranking of the surviving rows: a rearrangement of them in which
    [similarity * 0.7 + importance * 0.3] never increases and in which rows
    of equal score keep their index-query order.  The returned list has at
    most [n_results] items. *)
Theorem retrieve_ranked (self : MemoryManager) (query : text) (n_results : Z)
    (min_importance : float) :
  let results := fetched self query n_results in
  (0 <= n_results)%Z ->
  Forall (fun h => row_readable h = true) results ->
  Forall (fun h => is_nan (score h) = false) (surviving min_importance results) ->
  exists ranked out,
    retrieve self query n_results min_importance = Some out
    /\ Forall2 built_from out (firstn (Z.to_nat n_results) ranked)
    /\ ranked ≡ₚ surviving min_importance results
    /\ StronglySorted (descending score) ranked
    /\ (forall k,
          List.filter (fun h => feq (score h) k) ranked
          = List.filter (fun h => feq (score h) k)
              (surviving min_importance results))
    /\ (Z.of_nat (length out) <= n_results)%Z.
Proof.
  intros results Hn Hread Hnum.
  set (ranked := sort_by score (surviving min_importance results)).
  assert (retrieve self query n_results min_importance
          = Some (map candidate_of (firstn (Z.to_nat n_results) ranked)))
    as Hret.
  { rewrite (retrieve_readable _ _ _ _ Hn Hread). fold results.
    rewrite (list_sort_reverse_numbers score candidate_of _ Hnum).
    rewrite map_map. simpl. by rewrite firstn_map. }
  exists ranked, (map candidate_of (firstn (Z.to_nat n_results) ranked)).
  split; [done|]. split; [|split; [|split; [|split]]].
  - apply Forall2_map_diag.
    apply List.Forall_forall. intros h Hh. apply candidate_built_from.
    assert (In h (surviving min_importance results)) as Hs.
    { apply (Permutation_in _ (sort_by_perm score _)). fold ranked.
      rewrite <- (firstn_skipn (Z.to_nat n_results) ranked).
      apply in_or_app. by left. }
    pose proof (surviving_readable min_importance _ Hread) as Hall.
    rewrite List.Forall_forall in Hall. by apply Hall.
  - apply sort_by_perm.
  - by apply sort_by_sorted.
  - intros k. apply sort_by_stable.
  - rewrite length_map, length_take. lia.
Qed.

End Retrieve.

Remark retrieve_ranked_witness :
  (0 <= 2)%Z
  /\ exists ranked out,
    retrieve (env := library) fresh (str "q") 2 f0 = Some out
    /\ Forall2 built_from out (firstn (Z.to_nat 2) ranked)
    /\ ranked ≡ₚ surviving (env := library) f0
                   (fetched (env := library) fresh (str "q") 2)
    /\ StronglySorted (descending (score (env := library))) ranked
    /\ (forall k,
          List.filter (fun h => feq (score (env := library) h) k) ranked
          = List.filter (fun h => feq (score (env := library) h) k)
              (surviving (env := library) f0
                 (fetched (env := library) fresh (str "q") 2)))
    /\ (Z.of_nat (length out) <= 2)%Z.
Proof.
  split; [lia|].
  apply (retrieve_ranked (env := library) fresh (str "q") 2 f0).
  - lia.
  - repeat constructor.
  - repeat constructor.
Defined.

(** The ranking of the three entries: [b] first for its blended score, then
    [a] before [c], which it ties with, as the index returned them. *)
Example retrieve_orders_by_blended_score :
  option_map (map mem_id) (retrieve (env := library) fresh (str "q") 3 f0)
  = Some ["b"; "a"; "c"]%string
  /\ option_map (map mem_id) (retrieve (env := library) fresh (str "q") 1 f0)
     = Some ["b"%string]
  /\ option_map (map mem_id)
       (retrieve (env := library) fresh (str "q") 3 (int_truediv 1 2))
     = Some ["b"%string].
Proof. vm_compute. repeat split; reflexivity. Qed.

Example retrieve_empty_index :
  retrieve (env := empty_index) fresh (str "anything") 5 f0 = Some [].
Proof. reflexivity. Qed.

(** The claim read on every query result: [retrieve] raises on a row the
    index answers without metadata, even beside a sound row, and on an
    importance that [float()] does not accept. *)
Example retrieve_raises_on_unreadable_rows :
  retrieve (env := bare) fresh (str "q") 5 f0 = None
  /\ retrieve (env := labelled) fresh (str "q") 5 f0 = None.
Proof. vm_compute. split; reflexivity. Qed.

(** * Further facts *)

(** ** What the separators pass over *)

Section Separators.

Lemma run_consumes (P : ascii -> bool) (r : Re.regex) :
  consumes P r ->
  forall p q, In q (Re.run r p) ->
  exists pre, snd p = pre ++ snd q /\ forallb P pre = true.
Proof.
  induction r as [|f|a IHa b IHb|a IHa b IHb|a IHa| | |f]; simpl; intros Hc p q Hq.
  - destruct Hq as [<-|[]]. by exists [].
  - destruct p as [prev [|c s]]; simpl in *; [done|].
    destruct (f c) eqn:Hf; [|done]. destruct Hq as [<-|[]].
    exists [c]. simpl. by rewrite (Hc c Hf).
  - destruct Hc as [Ha Hb]. apply in_flat_map in Hq as (m & Hm & Hq).
    destruct (IHa Ha p m Hm) as (pre1 & E1 & H1).
    destruct (IHb Hb m q Hq) as (pre2 & E2 & H2).
    exists (pre1 ++ pre2). rewrite E1, E2, <- app_assoc. split; [done|].
    rewrite forallb_app. by rewrite H1, H2.
  - destruct Hc as [Ha Hb]. apply in_app_iff in Hq as [Hq|Hq]; eauto.
  - remember (length (snd p)) as fuel eqn:Efuel. clear Efuel.
    revert p q Hq. induction fuel as [|fuel IHf]; intros p q Hq.
    + destruct Hq as [<-|[]]. by exists [].
    + apply in_app_iff in Hq as [Hq|[<-|[]]]; [|by exists []].
      apply in_flat_map in Hq as (m & Hm & Hq).
      destruct (length (snd m) <? length (snd p))%nat; [|done].
      destruct (IHa Hc p m Hm) as (pre1 & E1 & H1).
      destruct (IHf m q Hq) as (pre2 & E2 & H2).
      exists (pre1 ++ pre2). rewrite E1, E2, <- app_assoc. split; [done|].
      rewrite forallb_app. by rewrite H1, H2.
  - destruct (Re.at_bol p); [|done]. destruct Hq as [<-|[]]. by exists [].
  - destruct (Re.at_eol p); [|done]. destruct Hq as [<-|[]]. by exists [].
  - destruct (fst p) as [c|]; [|done]. destruct (f c); [|done].
    destruct Hq as [<-|[]]. by exists [].
Qed.

Lemma match_at_consumes (P : ascii -> bool) (r : Re.regex)
    (prev : option ascii) (s : text) (k : nat) :
  consumes P r ->
  Re.match_at r prev s = Some k ->
  forallb P (firstn k s) = true.
Proof.
  intros Hc. unfold Re.match_at.
  destruct (Re.run r (prev, s)) as [|q rest] eqn:E; [done|].
  intros [= <-].
  destruct (run_consumes P r Hc (prev, s) q) as (pre & Es & Hpre).
  { rewrite E. by left. }
  simpl in Es. rewrite Es, length_app.
  replace (length pre + length (snd q) - length (snd q))%nat with (length pre) by lia.
  by rewrite take_app_length.
Qed.

Lemma blank_line_whitespace : consumes isspace Re.blank_line.
Proof.
  repeat split; intros c Hc;
    first [exact Hc | by apply Ascii.eqb_eq in Hc as <-].
Qed.

Lemma sentence_end_whitespace : consumes isspace Re.sentence_end.
Proof. repeat split; intros c Hc; exact Hc. Qed.

End Separators.

(** ** What the chunker keeps *)

Section Content.

Lemma solid_app (s1 s2 : text) : solid (s1 ++ s2) = solid s1 ++ solid s2.
Proof. apply List.filter_app. Qed.

Lemma solid_whitespace (s : text) : forallb isspace s = true -> solid s = [].
Proof.
  induction s as [|c s IH]; simpl; [done|].
  intros [Hc Hs]%andb_true_iff. rewrite Hc. simpl. auto.
Qed.

Lemma solid_nil_whitespace (s : text) : solid s = [] -> forallb isspace s = true.
Proof.
  induction s as [|c s IH]; simpl; [done|].
  destruct (isspace c); simpl; [auto|done].
Qed.

Lemma solid_rev (s : text) : solid (rev s) = rev (solid s).
Proof.
  induction s as [|c s IH]; simpl; [done|].
  rewrite solid_app, IH. simpl. destruct (isspace c); simpl; [|done].
  by rewrite app_nil_r.
Qed.

Lemma solid_lstrip (s : text) : solid (lstrip s) = solid s.
Proof.
  induction s as [|c s IH]; simpl; [done|].
  destruct (isspace c) eqn:E; simpl; [exact IH|]. by rewrite E.
Qed.

Lemma solid_strip (s : text) : solid (strip s) = solid s.
Proof.
  unfold strip, rstrip.
  by rewrite solid_rev, solid_lstrip, solid_rev, rev_involutive, solid_lstrip.
Qed.

Lemma strip_whitespace (s : text) : forallb isspace s = true -> strip s = [].
Proof.
  intros Hs. unfold strip, rstrip.
  assert (lstrip s = []) as ->; [|done].
  induction s as [|c s IH]; simpl in *; [done|].
  apply andb_true_iff in Hs as [-> Hs]. auto.
Qed.

Lemma strip_nil_solid (s : text) : strip s = [] <-> solid s = [].
Proof.
  split; intros H.
  - by rewrite <- solid_strip, H.
  - by apply strip_whitespace, solid_nil_whitespace.
Qed.

Lemma solid_join (sep : text) (parts : list text) :
  solid sep = [] -> solid (join sep parts) = solid (concat parts).
Proof.
  intros Hsep. induction parts as [|p ps IH]; simpl; [done|].
  destruct ps as [|p' ps]; [by rewrite app_nil_r|].
  rewrite !solid_app, Hsep, IH. done.
Qed.

Lemma split_from_solid (r : Re.regex) (s : text) :
  consumes isspace r ->
  forall prev skip cur,
    forallb isspace (firstn skip s) = true ->
    solid (concat (Re.split_from r prev skip cur s)) = solid cur ++ solid s.
Proof.
  intros Hr. induction s as [|c s IH]; intros prev skip cur Hskip; simpl.
  - by rewrite !app_nil_r.
  - destruct skip as [|k].
    + destruct (Re.match_at r prev (c :: s)) as [[|k]|] eqn:E.
      * rewrite IH by done. rewrite solid_app, <- app_assoc. simpl.
        by destruct (isspace c).
      * pose proof (match_at_consumes isspace r _ _ _ Hr E) as Hm.
        simpl in Hm. apply andb_true_iff in Hm as [Hc Hk].
        change (concat (cur :: ?l)) with (cur ++ concat l).
        rewrite solid_app, IH by done. simpl. by rewrite Hc.
      * rewrite IH by done. rewrite solid_app, <- app_assoc. simpl.
        by destruct (isspace c).
    + simpl in Hskip. apply andb_true_iff in Hskip as [Hc Hk].
      rewrite IH by done. by rewrite Hc.
Qed.

Lemma split_solid (r : Re.regex) (s : text) :
  consumes isspace r -> solid (concat (Re.split r s)) = solid s.
Proof. intros Hr. unfold Re.split. by rewrite split_from_solid. Qed.

Lemma stripped_pieces_solid (pieces : list text) :
  solid (concat (map strip (List.filter (fun p => truthy (strip p)) pieces)))
  = solid (concat pieces).
Proof.
  induction pieces as [|p pieces IH]; simpl; [done|].
  rewrite solid_app. destruct (truthy (strip p)) eqn:E; simpl.
  - by rewrite solid_app, solid_strip, IH.
  - rewrite IH. destruct (strip p) eqn:Ep; [|done].
    apply strip_nil_solid in Ep. by rewrite Ep.
Qed.

Lemma stripped_pieces_nonempty (pieces : list text) :
  Forall (fun p => p <> [])
    (map strip (List.filter (fun p => truthy (strip p)) pieces)).
Proof.
  induction pieces as [|p pieces IH]; simpl; [constructor|].
  destruct (truthy (strip p)) eqn:E; simpl; [|done].
  constructor; [|done]. by destruct (strip p).
Qed.

Lemma join_nonempty (sep : text) (parts : list text) :
  parts <> [] -> Forall (fun p => p <> []) parts -> join sep parts <> [].
Proof.
  destruct parts as [|p ps]; [done|]. intros _ [Hp _]%Forall_cons. simpl.
  destruct ps; [done|]. by destruct p.
Qed.

End Content.

Section Edges.

Lemma lstrip_headed (s : text) : headed (lstrip s) = true.
Proof.
  induction s as [|c s IH]; simpl; [done|].
  destruct (isspace c) eqn:E; simpl; [done|]. by rewrite E.
Qed.

Lemma lstrip_of_headed (s : text) :
  truthy s = true -> headed s = true -> lstrip s = s.
Proof.
  destruct s as [|c s]; simpl; [done|]. intros _ H.
  by destruct (isspace c).
Qed.

Lemma lstrip_snoc (l : text) (c : ascii) :
  isspace c = false -> exists y, lstrip (l ++ [c]) = y ++ [c].
Proof.
  intros Hc. induction l as [|d l IH]; simpl.
  - rewrite Hc. by exists [].
  - destruct (isspace d); [done|]. by exists (d :: l).
Qed.

Lemma headed_rev_snoc (y : text) (c : ascii) :
  isspace c = false -> headed (rev (y ++ [c])) = true.
Proof. intros Hc. rewrite rev_app_distr. simpl. by rewrite Hc. Qed.

Lemma strip_edged (p : text) : strip p <> [] -> edged (strip p) = true.
Proof.
  unfold strip, rstrip, edged. intros Hne.
  set (x := lstrip p) in *.
  assert (headed x = true) as Hx by apply lstrip_headed.
  assert (headed (lstrip (rev x)) = true) as Hy by apply lstrip_headed.
  rewrite rev_involutive, Hy, andb_true_r.
  destruct x as [|c x']; [done|]. simpl in Hx.
  apply negb_true_iff in Hx.
  destruct (lstrip_snoc (rev x') c Hx) as [y Ey]. simpl in *.
  rewrite Ey in *. rewrite rev_app_distr. simpl. by rewrite Hx.
Qed.

Lemma edged_strip (s : text) : edged s = true -> strip s = s.
Proof.
  unfold edged. intros [[Hne Hh]%andb_true_iff Hr]%andb_true_iff.
  unfold strip, rstrip. rewrite (lstrip_of_headed s Hne Hh).
  rewrite lstrip_of_headed; [apply rev_involutive| |done].
  destruct s as [|c s]; [done|]. simpl. by destruct (rev s).
Qed.

Lemma edged_nonempty (s : text) : edged s = true -> s <> [].
Proof. by destruct s. Qed.

Lemma edged_solid (s : text) : edged s = true -> solid s <> [].
Proof.
  destruct s as [|c s]; [done|]. unfold edged. simpl.
  intros [Hc _]%andb_true_iff. unfold solid. simpl. by rewrite Hc.
Qed.

Lemma strip_strip (s : text) : strip (strip s) = strip s.
Proof.
  destruct (strip s) as [|c s'] eqn:E; [done|].
  rewrite <- E. apply edged_strip, strip_edged. by rewrite E.
Qed.

Lemma headed_app (s1 s2 : text) :
  truthy s1 = true -> headed (s1 ++ s2) = headed s1.
Proof. by destruct s1. Qed.

Lemma edged_app (s1 sep s2 : text) :
  edged s1 = true -> edged s2 = true -> edged (s1 ++ sep ++ s2) = true.
Proof.
  unfold edged.
  intros [[Hn1 Hh1]%andb_true_iff Hr1]%andb_true_iff
         [[Hn2 Hh2]%andb_true_iff Hr2]%andb_true_iff.
  rewrite !rev_app_distr, <- app_assoc.
  rewrite !headed_app; [| by destruct s2 as [|c s2]; [|simpl; destruct (rev s2)] | done].
  rewrite Hh1, Hr2. by destruct s1.
Qed.

Lemma edged_join (sep : text) (parts : list text) :
  parts <> [] -> Forall (fun p => edged p = true) parts ->
  edged (join sep parts) = true.
Proof.
  induction parts as [|p ps IH]; [done|]. intros _ [Hp Hps]%Forall_cons.
  simpl. destruct ps as [|p' ps]; [done|].
  apply edged_app; [done|]. by apply IH.
Qed.

Lemma stripped_pieces_edged (pieces : list text) :
  Forall (fun p => edged p = true)
    (map strip (List.filter (fun p => truthy (strip p)) pieces)).
Proof.
  induction pieces as [|p pieces IH]; simpl; [constructor|].
  destruct (truthy (strip p)) eqn:E; simpl; [|done].
  constructor; [|done]. apply strip_edged. by destruct (strip p).
Qed.

End Edges.

Section ChunkerKeeps.
Context (Q : text -> Prop).
Context (Q_sentences : forall t, Forall Q (_split_sentences t)).
Context (Q_join : forall sep parts,
  parts <> [] -> Forall Q parts -> Q (join sep parts)).

Local Arguments solid : simpl never.
Local Arguments join : simpl never.

Lemma solid_paragraph_sep : solid paragraph_sep = [].
Proof. reflexivity. Qed.

Lemma solid_sentence_sep : solid sentence_sep = [].
Proof. reflexivity. Qed.

Lemma solid_nil : solid [] = [].
Proof. reflexivity. Qed.

Ltac flatten :=
  repeat first
    [ rewrite concat_app
    | rewrite concat_cons
    | rewrite concat_nil
    | rewrite solid_app
    | rewrite (solid_join _ _ solid_sentence_sep)
    | rewrite (solid_join _ _ solid_paragraph_sep)
    | rewrite solid_nil
    | rewrite app_nil_r
    | rewrite app_nil_l
    | rewrite <- app_assoc ].

Ltac nonempty_chunks :=
  repeat match goal with
  | |- Forall _ (_ ++ _) => apply Forall_app; split
  | |- Forall _ [] => constructor
  | |- Forall _ (_ :: _) => constructor
  | |- Q (join _ _) => apply Q_join
  | H : truthy ?l = true |- ?l <> [] => by destruct l
  | H : Forall _ (_ :: _) |- _ => apply Forall_cons in H as [? ?]
  | H : _ && _ = true |- _ => apply andb_true_iff in H as [? ?]
  | _ => assumption
  end.

Lemma split_sentences_solid (t : text) :
  solid (concat (_split_sentences t)) = solid t.
Proof.
  unfold _split_sentences.
  by rewrite stripped_pieces_solid, (split_solid _ _ sentence_end_whitespace).
Qed.

Lemma sentence_loop_keeps (max_chunk_size : Z) (sentences : list text) :
  forall chunks buf size chunks' buf',
    sentence_loop max_chunk_size sentences chunks buf size = (chunks', buf') ->
    (forall z,
       solid (concat chunks') ++ solid (concat buf') ++ z
       = solid (concat chunks) ++ solid (concat buf)
         ++ solid (concat sentences) ++ z)
    /\ (Forall Q chunks -> Forall Q buf ->
        Forall Q sentences ->
        Forall Q chunks' /\ Forall Q buf').
Proof.
  induction sentences as [|sent rest IH]; intros chunks buf size chunks' buf'; simpl.
  - intros [= <- <-]. flatten. auto.
  - destruct ((size + len sent >? max_chunk_size)%Z && truthy buf) eqn:E; intros Hrun;
      apply IH in Hrun as [Hs Hne]; split.
    + intros z. rewrite Hs. by flatten.
    + intros Hc Hb Hsent. apply Hne; nonempty_chunks.
    + intros z. rewrite Hs. by flatten.
    + intros Hc Hb Hsent. apply Hne; nonempty_chunks.
Qed.

Lemma paragraph_loop_keeps (max_chunk_size : Z) (paragraphs : list text) :
  forall chunks parts size chunks' parts',
    paragraph_loop max_chunk_size paragraphs chunks parts size = (chunks', parts') ->
    (forall z,
       solid (concat chunks') ++ solid (concat parts') ++ z
       = solid (concat chunks) ++ solid (concat parts)
         ++ solid (concat paragraphs) ++ z)
    /\ (Forall Q chunks -> Forall Q parts ->
        Forall Q paragraphs ->
        Forall Q chunks' /\ Forall Q parts').
Proof.
  induction paragraphs as [|para rest IH]; intros chunks parts size chunks' parts'; simpl.
  - intros [= <- <-]. flatten. auto.
  - destruct (len para >? max_chunk_size)%Z.
    + pose proof (Q_sentences para) as Hsne.
      pose proof (split_sentences_solid para) as Hsolid.
      assert (parts = [] \/ truthy parts = true) as [->|Ep]
        by (destruct parts; auto).
      all: try rewrite Ep; simpl.
      all: destruct (sentence_loop _ _ _ _ _) as [chunks1 buf1] eqn:Eloop.
      all: apply sentence_loop_keeps in Eloop as [Hs1 Hne1].
      all: rewrite Hsolid in Hs1.
      all: assert (buf1 = [] \/ truthy buf1 = true) as [->|Eb]
        by (destruct buf1; auto).
      all: try rewrite Eb; simpl.
      all: intros Hrun; apply IH in Hrun as [Hs Hne]; split.
      all: try (intros z; rewrite Hs; flatten;
                first [ rewrite Hs1
                      | lazymatch type of Hs1 with
                        | (forall z, _ = @?R z) =>
                            assert (forall z, solid (concat chunks1) ++ z = R z)
                              as Hs1' by exact Hs1;
                            rewrite Hs1'
                        end ];
                by flatten).
      all: intros Hc Hp Hpara;
        (destruct Hne1 as [Hc1 Hb1]; [nonempty_chunks..|]);
        apply Hne; nonempty_chunks.
    + destruct ((size + len para >? max_chunk_size)%Z && truthy parts) eqn:E;
        intros Hrun; apply IH in Hrun as [Hs Hne]; split.
      * intros z. rewrite Hs. by flatten.
      * intros Hc Hp Hpara. apply Hne; nonempty_chunks.
      * intros z. rewrite Hs. by flatten.
      * intros Hc Hp Hpara. apply Hne; nonempty_chunks.
Qed.

End ChunkerKeeps.

Section ChunkerTheorems.

Lemma split_sentences_edged (t : text) :
  Forall (fun s => edged s = true) (_split_sentences t).
Proof. apply stripped_pieces_edged. Qed.

(** The way [chunk_text] runs when the text has a paragraph: the chunks
    are those of the loop and the last accumulation, they hold the
    non-whitespace characters of the paragraphs, each is edged, and there
    is at least one, so that the closing [or [text]] is never used. *)
Lemma chunk_text_paragraphs (t : text) (max_chunk_size : Z) :
  let paragraphs :=
    map strip (List.filter (fun p => truthy (strip p)) (Re.split Re.blank_line t)) in
  paragraphs <> [] ->
  exists chunks parts,
    paragraph_loop max_chunk_size paragraphs [] [] 0 = (chunks, parts)
    /\ chunk_text t max_chunk_size
       = (if truthy parts then chunks ++ [join paragraph_sep parts] else chunks)
    /\ chunk_text t max_chunk_size <> []
    /\ solid (concat (chunk_text t max_chunk_size)) = solid (concat paragraphs)
    /\ Forall (fun c => edged c = true) (chunk_text t max_chunk_size).
Proof.
  intros paragraphs Hne.
  pose proof (stripped_pieces_edged (Re.split Re.blank_line t)) as Hedged.
  fold paragraphs in Hedged.
  destruct (paragraph_loop max_chunk_size paragraphs [] [] 0) as [chunks parts] eqn:E.
  destruct (paragraph_loop_keeps (fun p => edged p = true) split_sentences_edged
              edged_join _ _ _ _ _ _ _ E) as [Hsolid Hq].
  destruct Hq as [Hc Hp]; [done|done|done|].
  specialize (Hsolid []). rewrite !app_nil_r in Hsolid. simpl in Hsolid.
  assert (solid (concat paragraphs) <> []) as Hcontent.
  { destruct paragraphs as [|p ps]; [done|]. apply Forall_cons in Hedged as [Hp0 _].
    simpl. rewrite solid_app. apply edged_solid in Hp0. by destruct (solid p). }
  assert ((if truthy parts then chunks ++ [join paragraph_sep parts] else chunks) <> [])
    as Hsome.
  { destruct parts as [|p ps]; simpl.
    - intros ->. simpl in Hsolid. congruence.
    - by destruct chunks. }
  assert (chunk_text t max_chunk_size
          = (if truthy parts then chunks ++ [join paragraph_sep parts] else chunks))
    as Hrun.
  { unfold chunk_text. fold paragraphs. rewrite E.
    destruct paragraphs; [done|]. simpl.
    destruct (if truthy parts then _ else _); done. }
  exists chunks, parts. rewrite Hrun. repeat split; try done.
  - rewrite <- Hsolid. destruct (truthy parts) eqn:Ep.
    + rewrite concat_app, solid_app. simpl.
      by rewrite app_nil_r, (solid_join _ _ solid_paragraph_sep).
    + destruct parts; [|done]. simpl. by rewrite app_nil_r.
  - destruct (truthy parts) eqn:Ep; [|done].
    apply Forall_app. split; [done|]. constructor; [|done].
    apply edged_join; [by destruct parts|done].
Qed.

Lemma chunk_text_no_paragraph (t : text) (max_chunk_size : Z) :
  map strip (List.filter (fun p => truthy (strip p)) (Re.split Re.blank_line t)) = [] ->
  chunk_text t max_chunk_size = [strip t].
Proof.
  intros E. unfold chunk_text. rewrite E. simpl.
  by destruct (strip t).
Qed.

Lemma paragraphs_solid (t : text) :
  solid (concat (map strip (List.filter (fun p => truthy (strip p))
                              (Re.split Re.blank_line t))))
  = solid t.
Proof. by rewrite stripped_pieces_solid, (split_solid _ _ blank_line_whitespace). Qed.

(** X1.  Chunking loses nothing and invents nothing: read in order, the
    chunks hold exactly the non-whitespace characters of the text, in the
    order of the text. *)
Theorem chunk_text_keeps_content (t : text) (max_chunk_size : Z) :
  solid (concat (chunk_text t max_chunk_size)) = solid t.
Proof.
  destruct (map strip (List.filter (fun p => truthy (strip p))
                         (Re.split Re.blank_line t))) as [|p ps] eqn:E.
  - rewrite (chunk_text_no_paragraph t max_chunk_size E). simpl.
    by rewrite app_nil_r, solid_strip.
  - destruct (chunk_text_paragraphs t max_chunk_size) as (c & q & _ & _ & _ & Hs & _).
    { by rewrite E. }
    rewrite Hs. apply paragraphs_solid.
Qed.

(** X2.  Every sentence [_split_sentences] returns is non-empty and neither
    begins nor ends with whitespace, and the sentences hold exactly the
    non-whitespace characters of the text, in order. *)
Theorem split_sentences_trimmed (t : text) :
  Forall (fun s => s <> [] /\ strip s = s) (_split_sentences t)
  /\ solid (concat (_split_sentences t)) = solid t.
Proof.
  split; [|apply split_sentences_solid].
  eapply Forall_impl; [apply split_sentences_edged|].
  intros s Hs. split; [by apply edged_nonempty|by apply edged_strip].
Qed.

Lemma chunk_text_blank (t : text) (max_chunk_size : Z) :
  solid t = [] -> chunk_text t max_chunk_size = [ [] ].
Proof.
  intros Hb.
  destruct (map strip (List.filter (fun p => truthy (strip p))
                         (Re.split Re.blank_line t))) as [|p ps] eqn:E.
  - rewrite (chunk_text_no_paragraph t max_chunk_size E).
    apply strip_nil_solid in Hb. by rewrite Hb.
  - rewrite <- paragraphs_solid, E in Hb.
    pose proof (stripped_pieces_edged (Re.split Re.blank_line t)) as Hedged.
    rewrite E in Hedged. apply Forall_cons in Hedged as [Hp _].
    apply edged_solid in Hp. simpl in Hb. rewrite solid_app in Hb.
    by destruct (solid p).
Qed.

(** X3.  No chunk begins or ends with whitespace.  A text with a visible
    character gives non-empty chunks only; a blank text (empty, or
    whitespace only) gives the single empty chunk, whatever the limit. *)
Theorem chunk_text_trimmed (t : text) (max_chunk_size : Z) :
  Forall (fun c => strip c = c) (chunk_text t max_chunk_size)
  /\ (solid t <> [] -> Forall (fun c => c <> []) (chunk_text t max_chunk_size))
  /\ (solid t = [] -> chunk_text t max_chunk_size = [ [] ]).
Proof.
  split; [|split; [|apply chunk_text_blank]].
  all: destruct (map strip (List.filter (fun p => truthy (strip p))
                         (Re.split Re.blank_line t))) as [|p ps] eqn:E.
  - rewrite (chunk_text_no_paragraph t max_chunk_size E).
    constructor; [apply strip_strip|done].
  - destruct (chunk_text_paragraphs t max_chunk_size) as (c & q & _ & _ & _ & _ & He).
    { by rewrite E. }
    eapply Forall_impl; [exact He|]. intros s. apply edged_strip.
  - rewrite (chunk_text_no_paragraph t max_chunk_size E).
    intros Hne. constructor; [|done]. by rewrite strip_nil_solid.
  - destruct (chunk_text_paragraphs t max_chunk_size) as (c & q & _ & _ & _ & _ & He).
    { by rewrite E. }
    intros _. eapply Forall_impl; [exact He|]. intros s. apply edged_nonempty.
Qed.

End ChunkerTheorems.

(** ** More on the deduplicator *)

Section Threshold.

(** X4.  The threshold plays no part in the choice of the nearest
    document, and lowering it never loses a duplicate: what is a duplicate
    at a threshold is one at every lower threshold. *)
Theorem deduplicate_content_threshold (candidate : text) (docs : list text)
    (ds : list float) (lo hi : float) :
  fle lo hi = true ->
  snd (deduplicate_content candidate docs ds lo)
  = snd (deduplicate_content candidate docs ds hi)
  /\ (fst (deduplicate_content candidate docs ds hi) = true ->
      fst (deduplicate_content candidate docs ds lo) = true).
Proof.
  intros Hle. destruct ds as [|d0 rest]; simpl; [done|].
  split; [done|]. unfold fge. intros Hhi.
  apply (fle_trans lo hi _ Hle Hhi).
Qed.

End Threshold.

Remark deduplicate_content_threshold_witness :
  fle f0_5 f0_92 = true
  /\ snd (deduplicate_content (str "t") [str "a"] [f0_1] f0_5)
     = snd (deduplicate_content (str "t") [str "a"] [f0_1] f0_92)
  /\ (fst (deduplicate_content (str "t") [str "a"] [f0_1] f0_92) = true ->
      fst (deduplicate_content (str "t") [str "a"] [f0_1] f0_5) = true).
Proof.
  split; [reflexivity|].
  apply (deduplicate_content_threshold (str "t") [str "a"] [f0_1] f0_5 f0_92).
  reflexivity.
Defined.

(** ** More on retrieve *)

Section RetrieveMore.
Context {env : Env}.

Lemma collect_unreadable (min_importance : float) (results : list hit) :
  forall memories,
    collect min_importance results memories = None
    <-> Exists (fun h => row_readable h = false) results.
Proof.
  induction results as [|h results IH]; intros memories; simpl.
  - split; [done|]. by intros H%Exists_nil.
  - rewrite Exists_cons.
    destruct (row_readable h) eqn:Hr.
    + destruct (row_readable_importance h Hr) as (meta & Hm & Himp).
      rewrite Hm, Himp.
      destruct (flt (row_importance h) min_importance); rewrite IH;
        (split; [by right|by intros [?|?]]).
    + destruct (hit_metadata h) as [meta|] eqn:Hm; [|split; [by left|done]].
      rewrite (row_unreadable h Hr meta Hm). split; [by left|done].
Qed.

(** X5.  Let [n_results] be no negative number and let every row of the
    query result carry metadata whose importance, if any, is readable as a
    float.  Then [retrieve] returns, and whatever it returns is the
    candidate of a row of that result (same id, document and metadata,
    similarity [1 - distance]) whose importance is not below
    [min_importance], be the scores numbers or not. *)
Theorem retrieve_filters (self : MemoryManager) (query : text) (n_results : Z)
    (min_importance : float) :
  let results := fetched self query n_results in
  (0 <= n_results)%Z ->
  Forall (fun h => row_readable h = true) results ->
  exists out,
    retrieve self query n_results min_importance = Some out
    /\ Forall
         (fun m =>
            exists h,
              In h results
              /\ built_from m h
              /\ flt (row_importance h) min_importance = false)
         out.
Proof.
  intros results Hn Hread. eexists.
  split; [by apply retrieve_readable|]. fold results.
  apply List.Forall_forall. intros m Hm.
  assert (In m (map snd
                  (list_sort_reverse
                     (map (fun h => (score h, candidate_of h))
                        (surviving min_importance results))))) as Hm'.
  { rewrite <- (firstn_skipn (Z.to_nat n_results)). apply in_or_app. by left. }
  clear Hm. apply in_map_iff in Hm' as ([k m'] & <- & Hin). simpl.
  apply (Permutation_in _ (list_sort_reverse_perm _)) in Hin.
  apply in_map_iff in Hin as (h & [= <- <-] & Hh).
  apply filter_In in Hh as [Hin Hkeep].
  exists h. split; [done|]. split.
  - apply candidate_built_from.
    rewrite List.Forall_forall in Hread. by apply Hread.
  - by apply negb_true_iff in Hkeep.
Qed.

(** X6.  [retrieve] raises exactly when the index is not empty and either
    [n_results] is negative or some row of the query result is unreadable:
    it carries no metadata, or an importance that [float()] does not
    accept, be it a row the filter would have dropped. *)
Theorem retrieve_raises (self : MemoryManager) (query : text) (n_results : Z)
    (min_importance : float) :
  retrieve self query n_results min_importance = None
  <-> VectorStore_count self <> 0%nat
      /\ ((n_results < 0)%Z
          \/ Exists (fun h => row_readable h = false)
               (fetched self query n_results)).
Proof.
  unfold retrieve.
  destruct (Nat.eqb_spec (VectorStore_count self) 0) as [Hz|Hnz];
    [split; [done|by intros [? _]]|].
  destruct (Z.ltb_spec (Z.min (n_results * 3) (Z.of_nat (VectorStore_count self))) 0)
    as [Hneg|Hpos].
  { split; [|done]. intros _. split; [done|]. left. lia. }
  fold (fetched self query n_results).
  set (results := fetched self query n_results).
  destruct (collect min_importance results []) as [memories|] eqn:E.
  - assert (Forall (fun h => row_readable h = true) results) as Hread.
    { apply List.Forall_forall. intros h Hh.
      destruct (row_readable h) eqn:Eh; [done|].
      assert (collect min_importance results [] = None) as Hn; [|congruence].
      apply collect_unreadable, List.Exists_exists. eauto. }
    rewrite (collect_surviving _ _ Hread []) in E. injection E as <-. simpl.
    rewrite (decorate_scores _ (surviving_readable min_importance _ Hread)).
    split; [done|]. intros [_ [Hneg|Hex]]; [lia|].
    apply List.Exists_exists in Hex as (h & Hh & Hnone).
    rewrite List.Forall_forall in Hread. specialize (Hread h Hh). congruence.
  - split; [|done]. intros _. split; [done|]. right.
    by apply collect_unreadable in E.
Qed.

End RetrieveMore.

Remark retrieve_filters_witness :
  (0 <= 3)%Z
  /\ exists out,
    retrieve (env := library) fresh (str "q") 3 f0_5 = Some out
    /\ Forall
         (fun m =>
            exists h,
              In h (fetched (env := library) fresh (str "q") 3)
              /\ built_from m h
              /\ flt (row_importance (env := library) h) f0_5 = false)
         out.
Proof.
  split; [lia|].
  apply (retrieve_filters (env := library) fresh (str "q") 3 f0_5).
  - lia.
  - repeat constructor.
Defined.

(** ** More on store *)

Section StoreMore.
Context {env : Env}.

(** What one pass of the loop of [store] does to the manager. *)
Lemma store_chunk_effect (self self' : MemoryManager) (base_meta : metadata)
    (chunk : text) (mem_id : string) :
  store_chunk self base_meta chunk = Some (self', mem_id) ->
  let written := <["importance" := VFloat (compute_importance chunk)]> base_meta in
  similarity_threshold self' = similarity_threshold self
  /\ ((sent self' = sent self ++ [Add mem_id chunk (Some written)]
       /\ mem_id = uuid4 (drawn self) /\ drawn self' = S (drawn self))
      \/ (exists doc,
            sent self' = sent self ++ [Update mem_id doc (Some written)]
            /\ drawn self' = drawn self)).
Proof.
  unfold store_chunk.
  set (chunk_meta := <["importance" := VFloat (compute_importance chunk)]> base_meta).
  destruct (store_with_dedup_cases self chunk chunk_meta)
    as [(_ & best & h & _ & _ & ->)|(_ & ->)]; intros [= <- <-]; simpl;
    unfold chunk_meta; rewrite metadatas_arg_insert; split; eauto.
Qed.

Lemma added_app (l1 l2 : list call) : added (l1 ++ l2) = added l1 ++ added l2.
Proof.
  induction l1 as [|c l1 IH]; simpl; [done|].
  destruct c; simpl; by rewrite ?IH.
Qed.

(** The requests of a run of the loop, one per chunk: their targets are the
    identifiers returned, none is a deletion, the additions carry the
    successive draws, and each carries the base metadata with the score of
    its chunk. *)
Lemma stored_in_order_effect (base_meta : metadata) (self self' : MemoryManager)
    (chunks : list text) (ids : list string) :
  stored_in_order base_meta self chunks ids self' ->
  exists calls,
    sent self' = sent self ++ calls
    /\ map call_id calls = ids
    /\ Forall (fun c => is_delete c = false) calls
    /\ similarity_threshold self' = similarity_threshold self
    /\ added calls = map uuid4 (seq (drawn self) (length (added calls)))
    /\ drawn self' = (drawn self + length (added calls))%nat
    /\ Forall2
         (fun c chunk =>
            exists doc,
              let written :=
                <["importance" := VFloat (compute_importance chunk)]> base_meta in
              c = Add (call_id c) chunk (Some written)
              \/ c = Update (call_id c) doc (Some written))
         calls chunks.
Proof.
  induction 1 as [self|self self1 self' chunk rest mem_id ids Hone _ IH].
  - exists []. rewrite app_nil_r. simpl. rewrite Nat.add_0_r.
    repeat split; constructor.
  - destruct IH as (calls & Hsent & Hids & Hdel & Hthr & Hadd & Hdrawn & Hall).
    apply store_chunk_effect in Hone as (Hthr1 & [(Hs1 & Hid & Hd1)|(doc & Hs1 & Hd1)]).
    + exists (Add mem_id chunk
                (Some (<["importance" := VFloat (compute_importance chunk)]> base_meta))
              :: calls).
      rewrite Hsent, Hs1, <- app_assoc. simpl.
      split; [reflexivity|]. rewrite Hids. split; [done|].
      split; [by constructor|]. split; [congruence|].
      rewrite Hd1 in Hadd, Hdrawn. rewrite <- Hadd, <- Hid.
      split; [done|]. split; [lia|].
      constructor; [|done]. exists chunk. by left.
    + exists (Update mem_id doc
                (Some (<["importance" := VFloat (compute_importance chunk)]> base_meta))
              :: calls).
      rewrite Hsent, Hs1, <- app_assoc. simpl.
      split; [reflexivity|]. rewrite Hids. split; [done|].
      split; [by constructor|]. split; [congruence|].
      rewrite Hd1 in Hadd, Hdrawn.
      split; [done|]. split; [done|].
      constructor; [|done]. exists doc. by right.
Qed.

(** What [store_chunk] sends: the addition of the chunk, or the update of
    a row the index answers for the chunk. *)
Lemma store_chunk_request (self self' : MemoryManager) (base_meta : metadata)
    (chunk : text) (mem_id : string) :
  store_chunk self base_meta chunk = Some (self', mem_id) ->
  let written := <["importance" := VFloat (compute_importance chunk)]> base_meta in
  exists c,
    sent self' = sent self ++ [c]
    /\ call_id c = mem_id
    /\ (c = Add mem_id chunk (Some written)
        \/ exists h,
             In h (collection_query (sent self) chunk 1)
             /\ collection_count (sent self) <> 0%nat
             /\ c = Update (hit_id h) (merged_text chunk (hit_document h))
                      (Some written))
    /\ (collection_count (sent self) = 0%nat ->
        c = Add mem_id chunk (Some written)).
Proof.
  unfold store_chunk.
  set (chunk_meta := <["importance" := VFloat (compute_importance chunk)]> base_meta).
  destruct (store_with_dedup_cases self chunk chunk_meta)
    as [(Hnz & best & h & _ & Hlook & ->)|(_ & ->)]; intros [= <- <-]; simpl;
    unfold chunk_meta; rewrite metadatas_arg_insert.
  - eexists. split; [reflexivity|]. split; [done|]. split; [|done].
    right. exists h. split; [|done].
    unfold VectorStore_query in Hlook. unfold VectorStore_count in *.
    replace (Nat.min 1 (collection_count (sent self))) with 1%nat in Hlook by lia.
    simpl in Hlook. apply list_elem_of_lookup_2 in Hlook.
    by apply list_elem_of_In.
  - eexists. split; [reflexivity|]. split; [done|]. split; [by left|done].
Qed.

Lemma stored_in_order_requests (base_meta : metadata) (self self' : MemoryManager)
    (chunks : list text) (ids : list string) :
  stored_in_order base_meta self chunks ids self' ->
  exists calls,
    sent self' = sent self ++ calls
    /\ length calls = length chunks
    /\ forall i c chunk,
         calls !! i = Some c -> chunks !! i = Some chunk ->
         request_for (sent self ++ take i calls) chunk c.
Proof.
  induction 1 as [self|self self1 self' chunk rest mem_id ids Hone _ IH].
  - exists []. rewrite app_nil_r. split; [done|]. split; [done|].
    intros i c chunk Hc. by destruct i.
  - destruct IH as (calls & Hsent & Hlen & Hall).
    destruct (store_chunk_request _ _ _ _ _ Hone) as (c0 & Hs1 & Hid & Hreq & _).
    exists (c0 :: calls). rewrite Hsent, Hs1, <- app_assoc.
    split; [done|]. split; [simpl; by rewrite Hlen|].
    intros [|i] c chunk' Hc Hchunk; simpl in *.
    + injection Hc as <-. injection Hchunk as <-. rewrite app_nil_r.
      destruct Hreq as [->|(h & Hin & Hnz & ->)]; [left|right]; eauto.
    + rewrite Hs1 in Hall.
      replace (sent self ++ c0 :: take i calls)
        with ((sent self ++ [c0]) ++ take i calls) by by rewrite <- app_assoc.
      by apply Hall.
Qed.

(** X7.  [store] sends one request per chunk and returns the identifiers
    those requests are about, in order.  The request for a chunk is the
    addition of the chunk itself, or the update of an existing entry: a row
    the index answers for that chunk once the earlier requests of the call
    are in, updated under its own identifier with the longer of the chunk
    and its document.  No request is a deletion, and the threshold of the
    manager is left as it was. *)
Theorem store_returns_written_ids (self : MemoryManager) (content : text)
    (meta : option metadata) (session_id : option string) (auto_chunk : bool)
    (now : float) :
  exists self' ids calls,
    store self content meta session_id auto_chunk now = Some (self', ids)
    /\ sent self' = sent self ++ calls
    /\ map call_id calls = ids
    /\ length calls = length (chunks_of content auto_chunk)
    /\ (forall i c chunk,
          calls !! i = Some c ->
          chunks_of content auto_chunk !! i = Some chunk ->
          request_for (sent self ++ take i calls) chunk c)
    /\ Forall (fun c => is_delete c = false) calls
    /\ similarity_threshold self' = similarity_threshold self.
Proof.
  destruct (store_chunks_in_order (base_metadata content meta session_id now)
              (chunks_of content auto_chunk) self [])
    as (self' & ids & Hrun & Hord).
  destruct (stored_in_order_effect _ _ _ _ _ Hord)
    as (calls & Hsent & Hids & Hdel & Hthr & _ & _ & _).
  destruct (stored_in_order_requests _ _ _ _ _ Hord)
    as (calls' & Hsent' & Hlen & Hall).
  assert (calls' = calls) as ->.
  { rewrite Hsent in Hsent'. by apply app_inv_head in Hsent'. }
  exists self', ids, calls. repeat split; done.
Qed.

(** X8.  The identifiers [store] creates are the successive draws of
    [uuid4]: with [d] draws made before the call, the additions carry
    [uuid4 d], [uuid4 (d+1)], ... in order, and the call leaves the count of
    draws advanced by their number; merges draw nothing.  If [uuid4] never
    repeats a value, no two additions of a call share an identifier. *)
Theorem store_draws_fresh_ids (self : MemoryManager) (content : text)
    (meta : option metadata) (session_id : option string) (auto_chunk : bool)
    (now : float) :
  exists self' ids calls,
    store self content meta session_id auto_chunk now = Some (self', ids)
    /\ sent self' = sent self ++ calls
    /\ added calls = map uuid4 (seq (drawn self) (length (added calls)))
    /\ drawn self' = (drawn self + length (added calls))%nat
    /\ ((forall i j, uuid4 i = uuid4 j -> i = j) -> NoDup (added calls)).
Proof.
  destruct (store_chunks_in_order (base_metadata content meta session_id now)
              (chunks_of content auto_chunk) self [])
    as (self' & ids & Hrun & Hord).
  destruct (stored_in_order_effect _ _ _ _ _ Hord)
    as (calls & Hsent & _ & _ & _ & Hadd & Hdrawn & _).
  exists self', ids, calls. repeat split; try done.
  intros Hinj. rewrite Hadd. apply NoDup_fmap_2; [|apply NoDup_seq].
  intros i j. apply Hinj.
Qed.

Lemma base_metadata_default (content : text) (meta : option metadata)
    (session_id : option string) (now : float) (chunk : text) :
  meta = None \/ meta = Some ∅ ->
  <["importance" := VFloat (compute_importance chunk)]>
    (base_metadata content meta session_id now)
  = default_metadata now session_id chunk.
Proof.
  intros [->| ->]; unfold base_metadata, default_metadata; simpl;
    apply insert_insert_eq.
Qed.

(** X9.  Without metadata from the caller ([None] or an empty dict), every
    entry is written with exactly three keys: [timestamp], the time of the
    call; [session_id], the session given or ["unknown"] when it is absent
    or empty; and [importance], the score of the chunk written, not of the
    whole content. *)
Theorem store_default_metadata (self : MemoryManager) (content : text)
    (meta : option metadata) (session_id : option string) (auto_chunk : bool)
    (now : float) :
  meta = None \/ meta = Some ∅ ->
  exists self' ids calls,
    store self content meta session_id auto_chunk now = Some (self', ids)
    /\ sent self' = sent self ++ calls
    /\ Forall2
         (fun c chunk =>
            exists doc,
              c = Add (call_id c) chunk
                    (Some (default_metadata now session_id chunk))
              \/ c = Update (call_id c) doc
                       (Some (default_metadata now session_id chunk)))
         calls (chunks_of content auto_chunk)
    /\ (forall chunk,
          dom (default_metadata now session_id chunk)
          = ({["importance"; "session_id"; "timestamp"]} : gset string))
    /\ (session_id = None \/ session_id = Some EmptyString ->
        forall chunk,
          default_metadata now session_id chunk !! "session_id"
          = Some (VStr "unknown")).
Proof.
  intros Hmeta.
  destruct (store_chunks_in_order (base_metadata content meta session_id now)
              (chunks_of content auto_chunk) self [])
    as (self' & ids & Hrun & Hord).
  destruct (stored_in_order_effect _ _ _ _ _ Hord)
    as (calls & Hsent & _ & _ & _ & _ & _ & Hall).
  exists self', ids, calls. split; [done|]. split; [done|]. split; [|split].
  - eapply Forall2_impl; [exact Hall|].
    intros c chunk [doc Hc]. exists doc. simpl in Hc.
    by rewrite (base_metadata_default _ _ _ _ _ Hmeta) in Hc.
  - intros chunk. unfold default_metadata.
    rewrite !dom_insert_L, dom_empty_L. set_solver.
  - intros [->| ->] chunk; reflexivity.
Qed.

Lemma compute_importance_blank (t : text) : solid t = [] -> compute_importance t = f0.
Proof.
  intros Hb%solid_nil_whitespace. unfold compute_importance.
  by rewrite split_whitespace.
Qed.

(** X10.  The coordinator does not turn blank content away.  Content that
    is empty or whitespace only leads to one request, with importance
    [0.0], about the one identifier returned.  On an empty index it is the
    addition of the blank chunk: the content as it stands when no chunking
    applies, the empty string when it is longer than 500 characters and
    chunked.  Otherwise it is that addition or a merge: the update of a row
    the index answers, which keeps the longer of the chunk and the document
    of the row. *)
Theorem store_blank_content (self : MemoryManager) (content : text)
    (meta : option metadata) (session_id : option string) (auto_chunk : bool)
    (now : float) :
  solid content = [] ->
  let chunk := if auto_chunk && (len content >? 500)%Z then [] else content in
  exists self' c written,
    store self content meta session_id auto_chunk now = Some (self', [call_id c])
    /\ sent self' = sent self ++ [c]
    /\ written !! "importance" = Some (VFloat f0)
    /\ (c = Add (call_id c) chunk (Some written)
        \/ exists h,
             In h (collection_query (sent self) chunk 1)
             /\ collection_count (sent self) <> 0%nat
             /\ c = Update (hit_id h) (merged_text chunk (hit_document h))
                      (Some written))
    /\ (collection_count (sent self) = 0%nat ->
        c = Add (call_id c) chunk (Some written)).
Proof.
  intros Hblank chunk.
  assert (chunks_of content auto_chunk = [chunk]) as Hchunks.
  { unfold chunks_of, chunk. destruct (auto_chunk && _); [|done].
    by apply chunk_text_blank. }
  assert (compute_importance chunk = f0) as Hscore.
  { apply compute_importance_blank. unfold chunk. by destruct (auto_chunk && _). }
  unfold store. rewrite Hchunks. simpl.
  set (base := base_metadata content meta session_id now).
  destruct (store_with_dedup_total self chunk
              (<["importance" := VFloat (compute_importance chunk)]> base))
    as (self' & mem_id & Hone).
  destruct (store_chunk_request self self' base chunk mem_id Hone)
    as (c & Hs & Hid & Hreq & Hempty).
  exists self', c, (<["importance" := VFloat (compute_importance chunk)]> base).
  unfold store_chunk. rewrite Hone, Hid. split; [done|]. split; [done|].
  split; [rewrite Hscore; apply lookup_insert_eq|].
  done.
Qed.

End StoreMore.

Remark store_default_metadata_witness :
  exists self' ids calls,
    store (env := empty_index) fresh (str "alpha") None (Some EmptyString) true f1
    = Some (self', ids)
    /\ sent self' = sent fresh ++ calls
    /\ Forall2
         (fun c chunk =>
            exists doc,
              c = Add (call_id c) chunk
                    (Some (default_metadata f1 (Some EmptyString) chunk))
              \/ c = Update (call_id c) doc
                       (Some (default_metadata f1 (Some EmptyString) chunk)))
         calls (chunks_of (str "alpha") true)
    /\ (forall chunk,
          dom (default_metadata f1 (Some EmptyString) chunk)
          = ({["importance"; "session_id"; "timestamp"]} : gset string))
    /\ (Some EmptyString = None \/ Some EmptyString = Some EmptyString ->
        forall chunk,
          default_metadata f1 (Some EmptyString) chunk !! "session_id"
          = Some (VStr "unknown")).
Proof.
  apply (store_default_metadata (env := empty_index) fresh (str "alpha") None
           (Some EmptyString) true f1).
  by left.
Defined.

Remark store_blank_content_witness :
  solid (str "   ") = []
  /\ exists self' c written,
    store (env := shelf) fresh (str "   ") None None true f1
    = Some (self', [call_id c])
    /\ sent self' = sent fresh ++ [c]
    /\ written !! "importance" = Some (VFloat f0)
    /\ (c = Add (call_id c) (str "   ") (Some written)
        \/ exists h,
             In h (collection_query (Env := shelf) (sent fresh) (str "   ") 1)
             /\ collection_count (Env := shelf) (sent fresh) <> 0%nat
             /\ c = Update (hit_id h) (merged_text (str "   ") (hit_document h))
                      (Some written))
    /\ (collection_count (Env := shelf) (sent fresh) = 0%nat ->
        c = Add (call_id c) (str "   ") (Some written)).
Proof.
  split; [reflexivity|].
  apply (store_blank_content (env := shelf) fresh (str "   ") None None true f1).
  reflexivity.
Defined.

(** A blank text that meets a near entry is not written: the entry keeps
    its longer document. *)
Example store_blank_content_merged :
  option_map (fun r => sent (fst r))
    (store (env := shelf) fresh (str "   ") None None true f1)
  = Some [Update "m" (str "alpha beta 7")
            (Some (default_metadata f1 None (str "   ")))].
Proof. vm_compute. reflexivity. Qed.

(** ** Listing *)

Section Listing.
Context {host : Host}.

Lemma listed_rows_some (docs : list text) :
  forall ids metas,
    (length docs <= length ids)%nat -> (length docs <= length metas)%nat ->
    exists rows,
      listed_rows ids docs metas = Some rows
      /\ length rows = length docs
      /\ forall i r, rows !! i = Some r ->
           ids !! i = Some (listed_id r)
           /\ docs !! i = Some (listed_content r)
           /\ metas !! i = Some (listed_metadata r).
Proof.
  induction docs as [|doc docs IH]; intros ids metas Hids Hmetas; simpl.
  - exists []. split; [done|]. split; [done|]. intros i r Hr. by destruct i.
  - destruct ids as [|id ids]; [simpl in Hids; lia|].
    destruct metas as [|meta metas]; [simpl in Hmetas; lia|].
    simpl in Hids, Hmetas.
    destruct (IH ids metas) as (rows & -> & Hlen & Hrows); [lia|lia|].
    exists (Listed id doc meta :: rows). split; [done|]. split; [simpl; lia|].
    intros [|i] r Hr; simpl in *; [by injection Hr as <-|auto].
Qed.

Lemma listed_rows_none (docs : list text) :
  forall ids metas,
    listed_rows ids docs metas = None
    <-> (length ids < length docs)%nat \/ (length metas < length docs)%nat.
Proof.
  induction docs as [|doc docs IH]; intros ids metas; simpl.
  - split; [done|lia].
  - destruct ids as [|id ids]; [simpl; split; [lia|done]|].
    destruct metas as [|meta metas]; [simpl; split; [lia|done]|].
    simpl. specialize (IH ids metas).
    destruct (listed_rows ids docs metas).
    + split; [done|]. intros H. assert (None = Some l) as Hn; [|done].
      symmetry. apply IH. lia.
    + split; [|done]. intros _. destruct IH as [IH _]. specialize (IH eq_refl). lia.
Qed.

Lemma lookup_repeat {A : Type} (x y : A) (n i : nat) :
  repeat x n !! i = Some y -> y = x.
Proof.
  revert i. induction n as [|n IH]; intros [|i] H; simpl in *; try done.
  - by injection H as <-.
  - eauto.
Qed.

Lemma slice_to_length {A : Type} (l : list A) (stop : Z) :
  length (slice_to l stop)
  = if (0 <=? stop)%Z then Nat.min (Z.to_nat stop) (length l)
    else (length l - Z.to_nat (- stop))%nat.
Proof.
  unfold slice_to. destruct (0 <=? stop)%Z; rewrite length_take; lia.
Qed.

Lemma slice_to_lookup {A : Type} (l : list A) (stop : Z) (i : nat) (x : A) :
  slice_to l stop !! i = Some x -> l !! i = Some x.
Proof.
  unfold slice_to. destruct (0 <=? stop)%Z; intros H;
    apply lookup_take_Some in H as [H _]; exact H.
Qed.

(** X11.  When the collection answers with at least as many ids and
    metadatas as documents, [list_all] returns the rows in the order of the
    collection, row [i] holding the i-th id, document and metadata.  A
    limit [n >= 0] keeps the first [n] rows; a negative limit [-k] does not
    fail but drops the last [k] rows. *)
Theorem list_all_rows (self : MemoryManager) (limit : Z) :
  let result := VectorStore_get_all self in
  let ids := py_or (scan_ids result) [] in
  let docs := py_or (scan_documents result) [] in
  let metas := py_or (scan_metadatas result) (repeat (Some ∅) (length docs)) in
  (length docs <= length ids)%nat -> (length docs <= length metas)%nat ->
  exists out,
    list_all self limit = Some out
    /\ length out
       = (if (0 <=? limit)%Z then Nat.min (Z.to_nat limit) (length docs)
          else (length docs - Z.to_nat (- limit))%nat)
    /\ forall i r, out !! i = Some r ->
         ids !! i = Some (listed_id r)
         /\ docs !! i = Some (listed_content r)
         /\ metas !! i = Some (listed_metadata r).
Proof.
  intros result ids docs metas Hids Hmetas.
  destruct (listed_rows_some docs ids metas Hids Hmetas) as (rows & Hrows & Hlen & Hget).
  exists (slice_to rows limit). unfold list_all.
  fold result. fold ids. fold docs. fold metas. rewrite Hrows.
  split; [done|]. split.
  - by rewrite slice_to_length, Hlen.
  - intros i r Hr. apply Hget. by eapply slice_to_lookup.
Qed.

(** X12.  [list_all] raises exactly when the answer of the collection has
    fewer ids, or fewer metadatas, than documents.  Metadatas that are
    missing altogether do not make it raise: every row then gets an empty
    dict. *)
Theorem list_all_raises (self : MemoryManager) (limit : Z) :
  let result := VectorStore_get_all self in
  let ids := py_or (scan_ids result) [] in
  let docs := py_or (scan_documents result) [] in
  let metas := py_or (scan_metadatas result) (repeat (Some ∅) (length docs)) in
  (list_all self limit = None
   <-> (length ids < length docs)%nat \/ (length metas < length docs)%nat)
  /\ (py_or (scan_metadatas result) [] = [] ->
      (list_all self limit = None <-> (length ids < length docs)%nat)
      /\ forall out r, list_all self limit = Some out -> In r out ->
           listed_metadata r = Some ∅).
Proof.
  intros result ids docs metas.
  assert (list_all self limit = None
          <-> (length ids < length docs)%nat \/ (length metas < length docs)%nat)
    as Hnone.
  { unfold list_all. fold result. fold ids. fold docs. fold metas.
    rewrite <- listed_rows_none. by destruct (listed_rows ids docs metas). }
  split; [exact Hnone|]. intros Hmissing.
  assert (metas = repeat (Some ∅) (length docs)) as Hmetas.
  { unfold metas. by destruct (scan_metadatas result) as [[|m l]|]. }
  split.
  - rewrite Hnone, Hmetas, repeat_length. split; [intros [?|?]; [done|lia]|by left].
  - intros out r Hout Hr.
    unfold list_all in Hout. fold result in Hout. fold ids in Hout.
    fold docs in Hout. fold metas in Hout.
    destruct (listed_rows ids docs metas) as [rows|] eqn:Hrows; [|done].
    injection Hout as <-.
    apply list_elem_of_In, list_elem_of_lookup in Hr as [i Hi].
    apply slice_to_lookup in Hi.
    assert (length docs <= length ids)%nat as Hids.
    { destruct (le_lt_dec (length docs) (length ids)) as [?|Hlt]; [done|].
      assert (listed_rows ids docs metas = None) as Hn; [|congruence].
      apply listed_rows_none. by left. }
    destruct (listed_rows_some docs ids metas Hids) as (rows' & Hrows' & _ & Hget).
    { by rewrite Hmetas, repeat_length. }
    rewrite Hrows in Hrows'. injection Hrows' as <-.
    destruct (Hget i r Hi) as (_ & _ & Hm).
    rewrite Hmetas in Hm. apply lookup_repeat in Hm. done.
Qed.


End Listing.

Remark list_all_rows_witness :
  exists out,
    list_all (host := three_rows) fresh (-1) = Some out
    /\ length out = 2%nat
    /\ forall i r, out !! i = Some r ->
         ["a"; "b"; "c"]%string !! i = Some (listed_id r)
         /\ [str "first"; str "second"; str "third"] !! i = Some (listed_content r)
         /\ repeat (Some (∅ : metadata)) 3 !! i = Some (listed_metadata r).
Proof.
  destruct (list_all_rows (host := three_rows) fresh (-1))
    as (out & Hrun & Hlen & Hrows); [simpl; lia|simpl; lia|].
  exists out. split; [exact Hrun|]. split; [exact Hlen|exact Hrows].
Defined.

(** ** Letter case *)

Section LetterCase.

Lemma lower_char_nl (c : ascii) : Ascii.eqb (lower_char c) nl = Ascii.eqb c nl.
Proof. destruct c as [[] [] [] [] [] [] [] []]; reflexivity. Qed.

Lemma lower_char_lower_char (c : ascii) : lower_char (lower_char c) = lower_char c.
Proof. destruct c as [[] [] [] [] [] [] [] []]; reflexivity. Qed.

Lemma lower_lower (t : text) : lower (lower t) = lower t.
Proof.
  unfold lower. rewrite map_map. apply map_ext. apply lower_char_lower_char.
Qed.

Lemma run_blind (f : ascii -> ascii) (r : Re.regex) :
  (forall c, Ascii.eqb (f c) nl = Ascii.eqb c nl) ->
  blind f r ->
  forall p, Re.run r (map_position f p) = map (map_position f) (Re.run r p).
Proof.
  intros Hnl.
  induction r as [|g|a IHa b IHb|a IHa b IHb|a IHa| | |g]; simpl; intros Hb p.
  - done.
  - destruct p as [prev [|c s]]; simpl; [done|].
    rewrite Hb. by destruct (g c).
  - destruct Hb as [Ha Hb].
    rewrite (IHa Ha), !flat_map_concat_map, concat_map, !map_map.
    f_equal. apply map_ext. intros m. apply (IHb Hb).
  - destruct Hb as [Ha Hb]. by rewrite (IHa Ha), (IHb Hb), map_app.
  - rewrite length_map.
    generalize (length (snd p)). intros fuel. revert p.
    induction fuel as [|fuel IHf]; intros p; [done|].
    rewrite map_app. f_equal.
    rewrite (IHa Hb), !flat_map_concat_map, concat_map, !map_map.
    f_equal. apply map_ext. intros m. simpl. rewrite !length_map.
    destruct (length (snd m) <? length (snd p))%nat; [|done].
    apply IHf.
  - destruct p as [[c|] s]; unfold Re.at_bol; simpl; [|done].
    rewrite Hnl. by destruct (Ascii.eqb c nl).
  - destruct p as [prev [|c s]]; unfold Re.at_eol; simpl; [done|].
    rewrite Hnl. by destruct (Ascii.eqb c nl).
  - destruct p as [[c|] s]; simpl; [|done].
    rewrite Hb. by destruct (g c).
Qed.

Lemma match_at_blind (f : ascii -> ascii) (r : Re.regex)
    (prev : option ascii) (s : text) :
  (forall c, Ascii.eqb (f c) nl = Ascii.eqb c nl) ->
  blind f r ->
  Re.match_at r (option_map f prev) (map f s) = Re.match_at r prev s.
Proof.
  intros Hnl Hb. unfold Re.match_at.
  change (option_map f prev, map f s) with (map_position f (prev, s)).
  rewrite (run_blind f r Hnl Hb).
  destruct (Re.run r (prev, s)) as [|q l]; simpl; [done|].
  by rewrite !length_map.
Qed.

Lemma search_blind (f : ascii -> ascii) (r : Re.regex) (s : text) :
  (forall c, Ascii.eqb (f c) nl = Ascii.eqb c nl) ->
  blind f r ->
  Re.search r (map f s) = Re.search r s.
Proof.
  intros Hnl Hb. unfold Re.search.
  change None with (option_map f None) at 1.
  generalize (@None ascii). induction s as [|c s IH]; intros prev; simpl.
  - change [] with (map f []) at 1. by rewrite (match_at_blind f r prev [] Hnl Hb).
  - change (f c :: map f s) with (map f (c :: s)).
    rewrite (match_at_blind f r prev (c :: s) Hnl Hb).
    destruct (Re.match_at r prev (c :: s)); [done|].
    apply (IH (Some c)).
Qed.

Lemma structure_marker_blind : blind lower_char Re.structure_marker.
Proof.
  repeat split; intros c; try apply isspace_lower_char;
    destruct c as [[] [] [] [] [] [] [] []]; reflexivity.
Qed.

Lemma digits_blind : blind lower_char Re.digits.
Proof.
  repeat split; intros c; destruct c as [[] [] [] [] [] [] [] []]; reflexivity.
Qed.

Lemma compute_importance_lower (t : text) :
  compute_importance (lower t) = compute_importance t.
Proof.
  unfold compute_importance. rewrite lower_lower.
  unfold lower.
  by rewrite (search_blind lower_char _ t lower_char_nl structure_marker_blind),
    (search_blind lower_char _ t lower_char_nl digits_blind).
Qed.

(** X13.  The score does not see letter case: two texts that differ only
    in the case of their letters get the same score. *)
Theorem compute_importance_ignores_case (t1 t2 : text) :
  lower t1 = lower t2 -> compute_importance t1 = compute_importance t2.
Proof.
  intros H.
  rewrite <- (compute_importance_lower t1), <- (compute_importance_lower t2).
  by rewrite H.
Qed.

End LetterCase.

Remark compute_importance_ignores_case_witness :
  lower (str "Use TLS 1.3: ALWAYS") = lower (str "use tls 1.3: always")
  /\ compute_importance (str "Use TLS 1.3: ALWAYS")
     = compute_importance (str "use tls 1.3: always").
Proof.
  split; [reflexivity|].
  apply (compute_importance_ignores_case
           (str "Use TLS 1.3: ALWAYS") (str "use tls 1.3: always")).
  reflexivity.
Defined.

(** ** Front ends *)

Section FrontEndFacts.
Context {env : Env} {host : Host}.

(** [store] returns for every input: one request and one identifier per
    chunk, at least one. *)
Lemma store_effect (self : MemoryManager) (content : text)
    (meta : option metadata) (session_id : option string) (auto_chunk : bool)
    (now : float) :
  exists self' ids calls,
    store self content meta session_id auto_chunk now = Some (self', ids)
    /\ sent self' = sent self ++ calls
    /\ map call_id calls = ids
    /\ Forall (fun c => is_delete c = false) calls
    /\ length ids = length (chunks_of content auto_chunk)
    /\ ids <> [].
Proof.
  destruct (store_chunks_in_order (base_metadata content meta session_id now)
              (chunks_of content auto_chunk) self [])
    as (self' & ids & Hrun & Hord).
  destruct (stored_in_order_effect _ _ _ _ _ Hord)
    as (calls & Hsent & Hids & Hdel & _).
  pose proof (stored_in_order_length _ _ _ _ _ Hord) as Hlen.
  exists self', ids, calls. repeat split; try done.
  intros ->. simpl in Hlen. symmetry in Hlen. apply length_zero_iff_nil in Hlen.
  by apply (chunks_of_nonempty content auto_chunk).
Qed.

(** X14.  The [store] command of the command line never raises.  When the
    text (the argument or, without one, the standard input) is empty or
    whitespace only it returns 1, prints the error on the standard error and
    sends nothing to the index.  Otherwise it returns 0 and prints one line
    with the number of chunks written, at least one, and their identifiers;
    the index has received exactly one request per chunk. *)
Theorem main_store (arg : option text) (session : option string)
    (no_chunk : bool) (stdin : text) (now : float) :
  let given := default stdin arg in
  (solid given = [] ->
   main (CmdStore arg session no_chunk) stdin now
   = Some (Outcome 1 [] ["Error: no text provided."%string] fresh))
  /\ (solid given <> [] ->
      exists manager ids calls,
        store fresh given None session (negb no_chunk) now = Some (manager, ids)
        /\ main (CmdStore arg session no_chunk) stdin now
           = Some (Outcome 0
                     ["Stored " +:+ str_of_nat (length ids)
                        +:+ " memory chunk(s): " +:+ String.concat ", " ids]
                     [] manager)
        /\ sent manager = calls
        /\ map call_id calls = ids
        /\ length ids = length (chunks_of given (negb no_chunk))
        /\ ids <> []).
Proof.
  intros given.
  assert (main (CmdStore arg session no_chunk) stdin now
          = if negb (truthy (strip given))
            then Some (Outcome 1 [] ["Error: no text provided."%string] fresh)
            else match store fresh given None session (negb no_chunk) now with
                 | Some (manager, ids) =>
                     Some (Outcome 0
                             ["Stored " +:+ str_of_nat (length ids)
                                +:+ " memory chunk(s): " +:+ String.concat ", " ids]
                             [] manager)
                 | None => None
                 end) as Hmain.
  { unfold given. by destruct arg. }
  rewrite Hmain. split.
  - intros Hblank. apply strip_nil_solid in Hblank. by rewrite Hblank.
  - intros Hsolid.
    destruct (strip given) as [|c s] eqn:Estrip.
    { exfalso. apply Hsolid. by apply strip_nil_solid. }
    simpl.
    destruct (store_effect fresh given None session (negb no_chunk) now)
      as (manager & ids & calls & Hstore & Hsent & Hids & _ & Hlen & Hne).
    exists manager, ids, calls. rewrite Hstore. by repeat split.
Qed.

(** X15.  The [store_memory] tool has no such guard: content that is empty
    or whitespace only is written.  From any state of the server the tool
    answers that one chunk was stored, names its identifier, and has sent
    one request about that identifier, an addition or an update. *)
Theorem store_memory_blank (_manager : option MemoryManager) (content : text)
    (session_id : string) (now : float) :
  solid content = [] ->
  exists manager mem_id c,
    store_memory _manager content session_id now
    = Some (Some manager, "Stored 1 memory chunk. IDs: " +:+ mem_id)
    /\ sent manager = sent (_get_manager _manager) ++ [c]
    /\ call_id c = mem_id
    /\ is_delete c = false.
Proof.
  intros Hblank. unfold store_memory.
  destruct (store_effect (_get_manager _manager) content None (Some session_id)
              true now)
    as (manager & ids & calls & Hstore & Hsent & Hids & Hdel & Hlen & _).
  assert (length (chunks_of content true) = 1%nat) as Hone.
  { unfold chunks_of. destruct (true && _); [|done].
    by rewrite (chunk_text_blank content DEFAULT_CHUNK_SIZE Hblank). }
  rewrite Hone in Hlen.
  destruct ids as [|mem_id [|]]; try done.
  destruct calls as [|c [|]]; try done.
  injection Hids as Hid.
  exists manager, mem_id, c. rewrite Hstore. simpl.
  repeat split; try done. by inversion Hdel.
Qed.

End FrontEndFacts.

Remark store_memory_blank_witness :
  solid (str "  ") = []
  /\ exists manager mem_id c,
       store_memory (env := shelf) None (str "  ") "s1" f0
       = Some (Some manager, "Stored 1 memory chunk. IDs: " +:+ mem_id)
       /\ sent manager = sent (_get_manager None) ++ [c]
       /\ call_id c = mem_id
       /\ is_delete c = false.
Proof.
  split; [reflexivity|].
  apply (store_memory_blank (env := shelf) None (str "  ") "s1" f0).
  reflexivity.
Defined.
